(** * Verified model of the product-photo normalisation pipeline (resizeImage.py)

    The development embeds the five stages of [resizeImage.py] -- grey
    suppression, transparency flattening, border trimming, aspect-preserving
    resizing and canvas centring -- together with the per-file driver, and
    proves the properties the specification states about them.

    Python exceptions are values of an error monad, Python floats are the
    rationals that binary64 can represent (every operation rounds to nearest,
    ties to even), and a raster image is a record of a mode tag, a size and
    its rows of pixels. *)

From Stdlib Require Import String Ascii.
From Stdlib Require Import ZArith QArith Qround Qabs Qpower Lia Lqa List Bool.
From Stdlib Require Import SpecFloat DecimalString.
Import ListNotations.

(* ================================================================== *)
(** * Exceptions and the error monad *)
(* ================================================================== *)

(** The subclasses of Python's [Exception] that the pipeline can meet. *)
Inductive exn_class : Type :=
| ValueError
| TypeError
| IndexError
| ZeroDivisionError
| OverflowError
| OSError
| UnidentifiedImageError.

Record exn : Type := mk_exn { exn_cls : exn_class; exn_msg : string }.

Inductive result (A : Type) : Type :=
| Ok (a : A)
| Raise (e : exn).

Arguments Ok {A} a.
Arguments Raise {A} e.

Definition bind {A B : Type} (c : result A) (k : A -> result B) : result B :=
  match c with
  | Ok a => k a
  | Raise e => Raise e
  end.

Notation "x <- c ;; k" := (bind c (fun x => k))
  (at level 61, c at next level, right associativity).
Notation "' pat <- c ;; k" := (bind c (fun x => match x with pat => k end))
  (at level 61, pat pattern, c at next level, right associativity).

Definition is_ok {A : Type} (c : result A) : bool :=
  match c with
  | Ok _ => true
  | Raise _ => false
  end.

(* ================================================================== *)
(** * Python floats *)
(* ================================================================== *)

Module PyFloat.

Local Open Scope Q_scope.

(** A finite binary64 value is kept as the rational it denotes. *)
Definition float : Type := Q.

(** [ilog2 a] is the binary exponent of a positive rational:
    [2 ^ ilog2 a <= a < 2 ^ (ilog2 a + 1)]. *)
Definition ilog2 (a : Q) : Z :=
  let l := (Z.log2 (Qnum a) - Z.log2 (Zpos (Qden a)))%Z in
  if Qle_bool (2 ^ l) a then l else (l - 1)%Z.

(** Nearest integer, ties to the even one. *)
Definition rne (s : Q) : Z :=
  let f := Qfloor s in
  match Qcompare (s - inject_Z f) (1 # 2) with
  | Lt => f
  | Gt => (f + 1)%Z
  | Eq => if Z.even f then f else (f + 1)%Z
  end.

(** Rounding of an exact rational to binary64: 53 significant bits, the
    exponent of the last place never below [-1074] (subnormals), [None] when
    the rounded magnitude reaches [2 ^ 1024] (overflow). *)
Definition round53 (q : Q) : option float :=
  if Qeq_bool q 0 then Some 0
  else
    let a := Qabs q in
    let e := Z.max (ilog2 a - 52) (-1074) in
    let r := inject_Z (rne (a / 2 ^ e)) * 2 ^ e in
    if Qle_bool (2 ^ 1024) r then None
    else Some (if Qle_bool 0 q then r else - r).

(** The unit roundoff of binary64, [2 ^ -53]. *)
Definition u53 : Q := 1 # 9007199254740992.

Definition overflow (msg : string) : exn := mk_exn OverflowError msg.

Definition rounded (msg : string) (q : Q) : result float :=
  match round53 q with
  | Some r => Ok r
  | None => Raise (overflow msg)
  end.

(** [float(n)] for a Python int. *)
Definition of_int (n : Z) : result float :=
  rounded "int too large to convert to float" (inject_Z n).

(** [a / b] on two Python ints: the correctly rounded quotient. *)
Definition int_truediv (a b : Z) : result float :=
  if (b =? 0)%Z then Raise (mk_exn ZeroDivisionError "division by zero")
  else rounded "integer division result too large for a float"
               (inject_Z a / inject_Z b).

(** [x / y] and [x * y] on floats.  An overflowing result is [inf] in
    Python; the only consumer here is [int(...)], which raises
    [OverflowError] on it, so the error is raised at the operation. *)
Definition div (x y : float) : result float :=
  if Qeq_bool y 0 then Raise (mk_exn ZeroDivisionError "float division by zero")
  else rounded "cannot convert float infinity to integer" (x / y).

Definition mul (x y : float) : result float :=
  rounded "cannot convert float infinity to integer" (x * y).

(** [int(x)]: truncation toward zero. *)
Definition to_int (x : float) : Z :=
  if Qle_bool 0 x then Qfloor x else Qceiling x.

(** [n / x] and [n * x] with a Python int on the left: the int is converted
    to a float first. *)
Definition int_div_float (n : Z) (x : float) : result float :=
  m <- of_int n ;; div m x.

Definition int_mul_float (n : Z) (x : float) : result float :=
  m <- of_int n ;; mul m x.

(** ** The same operations in the Standard Library's IEEE 754 model

    [SpecFloat] gives binary64 as sign, mantissa and exponent; the
    definitions below run the three float operations of [resize_image] there
    and compare them with the rational model above. *)
Definition sf_of_int (n : Z) : spec_float := binary_normalize 53 1024 n 0 false.

Definition sf_value (x : spec_float) : option Q :=
  match x with
  | S754_zero _ => Some 0
  | S754_finite s m e =>
      Some ((if s then - inject_Z (Zpos m) else inject_Z (Zpos m)) * 2 ^ e)
  | _ => None
  end.

Definition same_value (a b : option Q) : bool :=
  match a, b with
  | Some x, Some y => Qeq_bool x y
  | None, None => true
  | _, _ => false
  end.

(** [w / h], [max_size / (w / h)] and [max_size * (w / h)] agree. *)
Definition agrees_with_SpecFloat (whm : Z * Z * Z) : bool :=
  let '(w, h, max_size) := whm in
  let a := SFdiv 53 1024 (sf_of_int w) (sf_of_int h) in
  same_value (sf_value a) (round53 (inject_Z w / inject_Z h))
  && match round53 (inject_Z w / inject_Z h), round53 (inject_Z max_size) with
     | Some ar, Some m =>
         same_value (sf_value (SFdiv 53 1024 (sf_of_int max_size) a))
                    (round53 (m / ar))
         && same_value (sf_value (SFmul 53 1024 (sf_of_int max_size) a))
                       (round53 (m * ar))
     | _, _ => false
     end.

End PyFloat.

Open Scope Z_scope.

(* ================================================================== *)
(** * Raster images *)
(* ================================================================== *)

(** Colour modes: greyscale, greyscale with alpha, palette, RGB, RGBA. *)
Inductive Mode : Type := L | LA | P | RGB | RGBA.

Definition Mode_eqb (a b : Mode) : bool :=
  match a, b with
  | L, L | LA, LA | P, P | RGB, RGB | RGBA, RGBA => true
  | _, _ => false
  end.

Definition bands (m : Mode) : nat :=
  match m with
  | L | P => 1
  | LA => 2
  | RGB => 3
  | RGBA => 4
  end.

Definition has_alpha (m : Mode) : bool :=
  match m with
  | LA | RGBA => true
  | _ => false
  end.

(** A pixel is the list of its band values, each an 8-bit number. *)
Definition pixel : Type := list Z.

(** An RGB colour as the configuration gives it. *)
Definition color : Type := (Z * Z * Z)%type.

Definition color_bands (c : color) : pixel :=
  let '(r, g, b) := c in [r; g; b].

Record Image : Type := mk_image {
  mode : Mode;
  width : Z;
  height : Z;
  rows : list (list pixel);           (* [height] rows of [width] pixels *)
  palette : list pixel;               (* RGB entries, mode P only *)
  transparency : option Z             (* info['transparency'], a palette index *)
}.

Definition size (img : Image) : Z * Z := (width img, height img).

Definition byte_ok (v : Z) : bool := (0 <=? v) && (v <=? 255).

Definition pixel_ok (m : Mode) (p : pixel) : bool :=
  (length p =? bands m)%nat && forallb byte_ok p.

(** Well-formed image: the rows agree with the declared size and every
    pixel has the bands of the mode, each in [0, 255]. *)
Definition wf_image (img : Image) : bool :=
  (0 <=? width img) && (0 <=? height img)
  && (length (rows img) =? Z.to_nat (height img))%nat
  && forallb (fun row => (length row =? Z.to_nat (width img))%nat
                         && forallb (pixel_ok (mode img)) row) (rows img).

Definition nonempty (img : Image) : bool :=
  (0 <? width img) && (0 <? height img).

(** The pixel at column [x], row [y] (meaningful inside the image). *)
Definition px (img : Image) (x y : Z) : pixel :=
  nth (Z.to_nat x) (nth (Z.to_nat y) (rows img) []) [].

Definition in_image (img : Image) (x y : Z) : bool :=
  (0 <=? x) && (x <? width img) && (0 <=? y) && (y <? height img).

(** [image.getpixel((x, y))]; negative coordinates count from the far edge. *)
Definition getpixel (img : Image) (xy : Z * Z) : result pixel :=
  let '(x, y) := xy in
  let x := if x <? 0 then width img + x else x in
  let y := if y <? 0 then height img + y else y in
  if in_image img x y then Ok (px img x y)
  else Raise (mk_exn IndexError "image index out of range").

(** [0; 1; ...; n-1] *)
Definition zrange (n : Z) : list Z := map Z.of_nat (seq 0 (Z.to_nat n)).

(** The rows of the [w] x [h] raster whose pixel at [(x, y)] is [f x y]. *)
Definition tabulate (w h : Z) (f : Z -> Z -> pixel) : list (list pixel) :=
  map (fun y => map (fun x => f x y) (zrange w)) (zrange h).

Definition clip8 (v : Z) : Z := Z.max 0 (Z.min 255 v).

(** Byte [k] of an integer colour, counted from the low end. *)
Definition byte_at (v : Z) (k : Z) : Z := Z.shiftr v (8 * k) mod 256.

(** The ink [Image.new] derives from a colour: band values are clipped to
    8 bits; an RGB tuple gets an opaque alpha in mode RGBA and an RGBA tuple
    loses its alpha in mode RGB.  A colour of one element stands for a plain
    integer, as [getpixel] returns it for a single-band image; in a mode of
    several bands the library reads it as packed bytes, red lowest and alpha
    highest. *)
Definition ink (m : Mode) (c : pixel) : result pixel :=
  if (length c =? bands m)%nat then Ok (map clip8 c)
  else
    match m, c with
    | RGBA, [r; g; b] => Ok [clip8 r; clip8 g; clip8 b; 255]
    | RGB, [r; g; b; _] => Ok [clip8 r; clip8 g; clip8 b]
    | RGBA, [v] => Ok [byte_at v 0; byte_at v 1; byte_at v 2; byte_at v 3]
    | RGB, [v] => Ok [byte_at v 0; byte_at v 1; byte_at v 2]
    | LA, [v] => Ok [byte_at v 0; byte_at v 3]
    | LA, _ => Raise (mk_exn TypeError
                "color must be int, or tuple of one or two elements")
    | (L | P), _ => Raise (mk_exn TypeError
                "color must be int or single-element tuple")
    | _, _ => Raise (mk_exn TypeError
                "color must be int, or tuple of one, three or four elements")
    end.

(** [Image.new(mode, size, color)] *)
Definition image_new (m : Mode) (sz : Z * Z) (c : pixel) : result Image :=
  let '(w, h) := sz in
  if (w <? 0) || (h <? 0)
  then Raise (mk_exn ValueError "Width and height must be >= 0")
  else
    p <- ink m c ;;
    Ok (mk_image m w h (tabulate w h (fun _ _ => p)) [] None).

(** The uniform [w] x [h] image of one pixel value. *)
Definition uniform_image (m : Mode) (w h : Z) (p : pixel) : Image :=
  mk_image m w h (tabulate w h (fun _ _ => p)) [] None.

(** ** Mode conversion *)

Definition palette_entry (img : Image) (i : Z) : pixel :=
  nth (Z.to_nat i) (palette img) [0; 0; 0].

Definition palette_alpha (img : Image) (i : Z) : Z :=
  match transparency img with
  | Some t => if t =? i then 0 else 255
  | None => 255
  end.

(** ['transparency' in image.info] *)
Definition has_transparency (img : Image) : bool :=
  match transparency img with
  | Some _ => true
  | None => false
  end.

Definition to_rgba (img : Image) (p : pixel) : pixel :=
  match mode img, p with
  | L, [l] => [l; l; l; 255]
  | LA, [l; a] => [l; l; l; a]
  | P, [i] => palette_entry img i ++ [palette_alpha img i]
  | RGB, [r; g; b] => [r; g; b; 255]
  | _, _ => p
  end.

Definition to_rgb (img : Image) (p : pixel) : pixel :=
  match mode img, p with
  | L, [l] => [l; l; l]
  | LA, [l; _] => [l; l; l]
  | P, [i] => palette_entry img i
  | RGBA, [r; g; b; _] => [r; g; b]
  | _, _ => p
  end.

(** A pixel of [src] brought to mode [m], as [paste] does with a source of
    another mode. *)
Definition convert_pixel (m : Mode) (src : Image) (p : pixel) : pixel :=
  match m with
  | RGB => to_rgb src p
  | RGBA => to_rgba src p
  | _ => p
  end.

(** [image.convert("RGBA")] and [image.convert("RGB")] *)
Definition convert_RGBA (img : Image) : Image :=
  mk_image RGBA (width img) (height img)
           (map (map (to_rgba img)) (rows img)) [] None.

Definition convert_RGB (img : Image) : Image :=
  mk_image RGB (width img) (height img)
           (map (map (to_rgb img)) (rows img)) [] None.

(* ================================================================== *)
(** * Stage 1a: grey suppression ([remove_grey_background]) *)
(* ================================================================== *)

Definition default_grey_threshold : color := (200, 200, 200).
Definition white : color := (255, 255, 255).

(** The threshold test of lines 15-19 on one 4-tuple, and the assignment of
    line 22: the first three entries are overwritten, the last is kept. *)
Definition is_grey (thr : color) (r g b : Z) : bool :=
  let '(tr, tg, tb) := thr in (tr <=? r) && (tg <=? g) && (tb <=? b).

Definition suppress (thr rep : color) (p : pixel) : pixel :=
  match p with
  | [r; g; b; a] =>
      if is_grey thr r g b
      then let '(cr, cg, cb) := rep in [cr; cg; cb; a]
      else p
  | _ => p
  end.

(** The assignment of line 22 first converts the replacement colour to the
    [uint8] type of the array, whatever the mask selects; the first entry
    outside [0, 255] makes that conversion raise [OverflowError]. *)
Definition out_of_uint8 (c : color) : option Z :=
  let '(r, g, b) := c in
  if negb (byte_ok r) then Some r
  else if negb (byte_ok g) then Some g
  else if negb (byte_ok b) then Some b
  else None.

(** The decimal numeral of an integer, as Python prints it. *)
Definition decimal (v : Z) : string := NilZero.string_of_int (Z.to_int v).

Definition uint8_overflow (v : Z) : exn :=
  mk_exn OverflowError
    ("Python integer " ++ decimal v ++ " out of bounds for uint8").

(** The [ValueError] of unpacking [got] values into four names. *)
Definition unpack_error (got : Z) : exn :=
  mk_exn ValueError
    (if 4 <? got then "too many values to unpack (expected 4)"
     else if got =? 3 then "not enough values to unpack (expected 4, got 3)"
     else if got =? 2 then "not enough values to unpack (expected 4, got 2)"
     else if got =? 1 then "not enough values to unpack (expected 4, got 1)"
     else "not enough values to unpack (expected 4, got 0)").

(** [np.array(image)] has shape (height, width, bands), or (height, width)
    for a single-band image.  Line 12 unpacks the first axis of the
    transpose into four names: with several bands that axis is the band
    axis, so the image needs four bands; with one band it is the column
    axis, so the image needs width 4, and each row of four values is then
    treated like one (red, green, blue, alpha) tuple.  [Image.fromarray]
    rebuilds an RGBA image from a three-axis array and an L image from a
    two-axis array, with an empty [info]. *)
Definition remove_grey_background (image : Image) (grey_threshold replace_color : color)
  : result Image :=
  match bands (mode image) with
  | 4%nat =>
      match out_of_uint8 replace_color with
      | Some v => Raise (uint8_overflow v)
      | None =>
          Ok (mk_image RGBA (width image) (height image)
                (map (map (suppress grey_threshold replace_color)) (rows image))
                [] None)
      end
  | 1%nat =>
      if width image =? 4 then
        match out_of_uint8 replace_color with
        | Some v => Raise (uint8_overflow v)
        | None =>
            Ok (mk_image L (width image) (height image)
                  (map (fun row =>
                          map (fun v => [v])
                              (suppress grey_threshold replace_color (concat row)))
                       (rows image))
                  [] None)
        end
      else Raise (unpack_error (width image))
  | n => Raise (unpack_error (Z.of_nat n))
  end.

(* ================================================================== *)
(** * Stage 1b: transparency flattening ([ensure_pure_white_background]) *)
(* ================================================================== *)

(** The library's 8-bit blend: [div255 a] is [a / 255] rounded to nearest,
    [blend8 mask in1 in2] weighs [in2] by [mask] and [in1] by [255 - mask]. *)
Definition div255 (a : Z) : Z :=
  let tmp := a + 128 in Z.shiftr (Z.shiftr tmp 8 + tmp) 8.

Definition blend8 (mask in1 in2 : Z) : Z :=
  div255 (in1 * (255 - mask) + in2 * mask).

Fixpoint zip_with {A B C : Type} (f : A -> B -> C) (l1 : list A) (l2 : list B)
  : list C :=
  match l1, l2 with
  | a :: l1', b :: l2' => f a b :: zip_with f l1' l2'
  | _, _ => []
  end.

(** The alpha band of an RGBA pixel: [image.split()[-1]]. *)
Definition alpha_of (p : pixel) : Z := last p 255.

(** [Image.composite(image1, image2, mask)]: a copy of [image2] onto which
    [image1] is pasted through [mask]; every band, alpha included, is
    blended with the mask value of its pixel. *)
Definition composite (image1 image2 : Image) (mask : Z -> Z -> Z) : Image :=
  mk_image (mode image2) (width image2) (height image2)
    (tabulate (width image2) (height image2)
       (fun x y => zip_with (blend8 (mask x y)) (px image2 x y)
                            (convert_pixel (mode image2) image1 (px image1 x y))))
    [] None.

Definition ensure_pure_white_background (image : Image) (background_color : color)
  : result Image :=
  image <- remove_grey_background image default_grey_threshold white ;;
  if has_alpha (mode image)
     || (Mode_eqb (mode image) P && has_transparency image)
  then
    let alpha := fun x y => alpha_of (px (convert_RGBA image) x y) in
    bg <- image_new RGBA (size image) (color_bands background_color ++ [255]) ;;
    Ok (convert_RGB (composite image bg alpha))
  else Ok (convert_RGB image).

(* ================================================================== *)
(** * Stage 2: border trimming ([trim_border]) *)
(* ================================================================== *)

(** [ImageChops.difference]: per band absolute difference. *)
Definition difference (image1 image2 : Image) : Image :=
  mk_image (mode image1) (width image1) (height image1)
    (tabulate (width image1) (height image1)
       (fun x y => zip_with (fun a b => Z.abs (a - b)) (px image1 x y) (px image2 x y)))
    [] None.

(** A pixel counts for the bounding box when a band is non-zero; in a mode
    with an alpha band only the alpha band is looked at. *)
Definition nonzero (m : Mode) (p : pixel) : bool :=
  if has_alpha m then negb (last p 0 =? 0)
  else existsb (fun v => negb (v =? 0)) p.

(** Least and greatest index in [start, start + n) satisfying [p]. *)
Fixpoint find_first (p : Z -> bool) (start : Z) (n : nat) : option Z :=
  match n with
  | O => None
  | S k => if p start then Some start else find_first p (start + 1) k
  end.

Fixpoint find_last (p : Z -> bool) (start : Z) (n : nat) : option Z :=
  match n with
  | O => None
  | S k => if p (start + Z.of_nat k) then Some (start + Z.of_nat k)
           else find_last p start k
  end.

Definition row_has_data (img : Image) (y : Z) : bool :=
  existsb (fun x => nonzero (mode img) (px img x y)) (zrange (width img)).

Definition col_has_data (img : Image) (x : Z) : bool :=
  existsb (fun y => nonzero (mode img) (px img x y)) (zrange (height img)).

(** [image.getbbox()]: (left, upper, right, lower) of the smallest rectangle
    holding every counted pixel, right and lower exclusive; [None] when no
    pixel counts. *)
Definition getbbox (img : Image) : option (Z * Z * Z * Z) :=
  match find_first (row_has_data img) 0 (Z.to_nat (height img)),
        find_last (row_has_data img) 0 (Z.to_nat (height img)),
        find_first (col_has_data img) 0 (Z.to_nat (width img)),
        find_last (col_has_data img) 0 (Z.to_nat (width img)) with
  | Some y0, Some y1, Some x0, Some x1 =>
      Some (x0, y0, x1 + 1, y1 + 1)
  | _, _, _, _ => None
  end.

(** [image.crop(box)]; pixels of the box outside the image are zero. *)
Definition crop (img : Image) (box : Z * Z * Z * Z) : result Image :=
  let '(x0, y0, x1, y1) := box in
  if x1 <? x0
  then Raise (mk_exn ValueError "Coordinate 'right' is less than 'left'")
  else if y1 <? y0
  then Raise (mk_exn ValueError "Coordinate 'lower' is less than 'upper'")
  else
    Ok (mk_image (mode img) (x1 - x0) (y1 - y0)
          (tabulate (x1 - x0) (y1 - y0)
             (fun x y => if in_image img (x + x0) (y + y0)
                         then px img (x + x0) (y + y0)
                         else repeat 0 (bands (mode img))))
          (palette img) (transparency img)).

Definition trim_border (image : Image) (border_color : option pixel)
  : result Image :=
  border_color <-
    match border_color with
    | None => getpixel image (0, 0)
    | Some c => Ok c
    end ;;
  bg <- image_new (mode image) (size image) border_color ;;
  let diff := difference image bg in
  match getbbox diff with
  | Some bbox => crop image bbox
  | None => Ok image
  end.

(* ================================================================== *)
(** * The world outside the program *)
(* ================================================================== *)

(** Library and operating-system calls whose results the program only
    passes on: decoding a file, resampling, encoding and writing, and the
    path and directory functions of [os]. *)
Record World : Type := mk_world {
  image_open : string -> result Image;            (* Image.open(path) *)
  image_resize : Image -> Z * Z -> result Image;  (* image.resize(size, Image.LANCZOS) *)
  image_save : Image -> string -> result unit;    (* save(path, format="WEBP", quality=85, optimize=True) *)
  splitext_root : string -> string;               (* os.path.splitext(path)[0] *)
  path_join : string -> string -> string;         (* os.path.join *)
  path_exists : string -> bool;                   (* os.path.exists *)
  makedirs : string -> result unit;               (* os.makedirs *)
  listdir : string -> result (list string)        (* os.listdir *)
}.

(* ================================================================== *)
(** * Stage 3: aspect-preserving resize ([resize_image]) *)
(* ================================================================== *)

(** Lines 61-69: the size handed to the resampler. *)
Definition resize_size (sz : Z * Z) (max_size : Z) : result (Z * Z) :=
  let '(original_width, original_height) := sz in
  aspect_ratio <- PyFloat.int_truediv original_width original_height ;;
  if original_height <? original_width then
    let new_width := max_size in
    q <- PyFloat.int_div_float max_size aspect_ratio ;;
    Ok (new_width, PyFloat.to_int q)
  else
    let new_height := max_size in
    q <- PyFloat.int_mul_float max_size aspect_ratio ;;
    Ok (PyFloat.to_int q, new_height).

Definition resize_image (W : World) (image : Image) (max_size : Z) : result Image :=
  new_size <- resize_size (size image) max_size ;;
  image_resize W image new_size.

(* ================================================================== *)
(** * Stage 4: centring on the canvas (lines 94-99 of [process_image]) *)
(* ================================================================== *)

(** [dst.paste(src, (x0, y0))]: an opaque overwrite of the part of the
    source that falls inside the destination; the source pixel is brought to
    the destination's mode. *)
Definition paste (dst src : Image) (box : Z * Z) : Image :=
  let '(x0, y0) := box in
  mk_image (mode dst) (width dst) (height dst)
    (tabulate (width dst) (height dst)
       (fun x y => if in_image src (x - x0) (y - y0)
                   then convert_pixel (mode dst) src (px src (x - x0) (y - y0))
                   else px dst x y))
    (palette dst) (transparency dst).

Definition center_on_canvas (resized_img : Image) (final_size : Z * Z)
           (background_color : color) : result Image :=
  final_img <- image_new RGB final_size (color_bands background_color) ;;
  let x_offset := (fst final_size - fst (size resized_img)) / 2 in
  let y_offset := (snd final_size - snd (size resized_img)) / 2 in
  Ok (paste final_img resized_img (x_offset, y_offset)).

(* ================================================================== *)
(** * Stage 5: the driver ([process_image], [process_folder]) *)
(* ================================================================== *)

(** A statement either completes or raises, and prints lines meanwhile. *)
Definition Proc (A : Type) : Type := (result A * list string)%type.

Definition lift {A : Type} (c : result A) : Proc A := (c, []).

Definition print (line : string) : Proc unit := (Ok tt, [line]).

Definition seq_proc {A B : Type} (c : Proc A) (k : A -> Proc B) : Proc B :=
  match c with
  | (Ok a, out) => let '(r, out') := k a in (r, out ++ out')
  | (Raise e, out) => (Raise e, out)
  end.

(** [try: body  except Exception as e: handler] *)
Definition try_except {A : Type} (body : Proc A) (handler : exn -> Proc A) : Proc A :=
  match body with
  | (Ok a, out) => (Ok a, out)
  | (Raise e, out) => let '(r, out') := handler e in (r, out ++ out')
  end.

(** [for a in l: body]; a raising iteration ends the loop. *)
Fixpoint for_each {A : Type} (l : list A) (body : A -> Proc unit) : Proc unit :=
  match l with
  | [] => (Ok tt, [])
  | a :: l' => seq_proc (body a) (fun _ => for_each l' body)
  end.

(** Lines 83-99: decode, force RGBA, normalise, trim, resize, centre. *)
Definition render (W : World) (input_path : string) (max_size : Z)
           (final_size : Z * Z) (background_color : color) : result Image :=
  img <- image_open W input_path ;;
  let img := convert_RGBA img in
  img <- ensure_pure_white_background img background_color ;;
  cropped_img <- trim_border img None ;;
  resized_img <- resize_image W cropped_img max_size ;;
  center_on_canvas resized_img final_size background_color.

(** Lines 83-103: everything inside the [try] up to the write; the result
    is the image written and the path it is written to. *)
Definition pipeline (W : World) (input_path output_path : string) (max_size : Z)
           (final_size : Z * Z) (background_color : color)
  : result (Image * string) :=
  final_img <- render W input_path max_size final_size background_color ;;
  let output_webp_path := (splitext_root W output_path ++ ".webp")%string in
  _ <- image_save W final_img output_webp_path ;;
  Ok (final_img, output_webp_path).

Definition process_image (W : World) (input_path output_path : string)
           (max_size : Z) (final_size : Z * Z) (background_color : color)
  : Proc unit :=
  try_except
    (seq_proc (lift (pipeline W input_path output_path max_size final_size
                              background_color))
       (fun written => print ("Processed and saved: " ++ snd written)%string))
    (fun e => print ("Error processing " ++ input_path ++ ": " ++ exn_msg e)%string).

Definition lower_ascii (c : ascii) : ascii :=
  let n := nat_of_ascii c in
  if ((65 <=? n) && (n <=? 90))%nat then ascii_of_nat (n + 32) else c.

Fixpoint lower (s : string) : string :=
  match s with
  | EmptyString => EmptyString
  | String c s' => String (lower_ascii c) (lower s')
  end.

Definition endswith (s suffix : string) : bool :=
  let n := String.length s in
  let k := String.length suffix in
  (k <=? n)%nat && String.eqb (substring (n - k) k s) suffix.

Definition image_extensions : list string :=
  [".png"; ".jpg"; ".jpeg"; ".bmp"; ".gif"; ".webp"]%string.

Definition is_image_name (filename : string) : bool :=
  existsb (endswith (lower filename)) image_extensions.

Definition process_folder (W : World) (input_folder output_folder : string)
           (max_size : Z) (final_size : Z * Z) (background_color : color)
  : Proc unit :=
  seq_proc (lift (if path_exists W output_folder then Ok tt
                  else makedirs W output_folder)) (fun _ =>
  seq_proc (lift (listdir W input_folder)) (fun names =>
  for_each names (fun filename =>
    if is_image_name filename then
      let input_path := path_join W input_folder filename in
      let output_path := path_join W output_folder filename in
      process_image W input_path output_path max_size final_size background_color
    else (Ok tt, [])))).

(** The defaults of [process_image] and [process_folder]. *)
Definition default_max_size : Z := 500.
Definition default_final_size : Z * Z := (1000, 1000).

(* ================================================================== *)
(** * Notions used to state the properties *)
(* ================================================================== *)

(** An RGB colour whose channels are 8-bit values. *)
Definition color_ok (c : color) : bool :=
  let '(r, g, b) := c in byte_ok r && byte_ok g && byte_ok b.

(** What lines 36-38 do to one RGBA pixel: blend every band with the
    opaque background through the pixel's own alpha, then drop the alpha. *)
Definition flatten_pixel (background_color : color) (p : pixel) : pixel :=
  match zip_with (blend8 (alpha_of p))
                 (map clip8 (color_bands background_color ++ [255])) p with
  | [r; g; b; _] => [r; g; b]
  | q => q
  end.

(** A pixel of the image that counts for its bounding box. *)
Definition counted (img : Image) (x y : Z) : Prop :=
  in_image img x y = true /\ nonzero (mode img) (px img x y) = true.

(** The pixel at [(x, y)] lies in the image and differs from [c]. *)
Definition differs (img : Image) (c : pixel) (x y : Z) : Prop :=
  in_image img x y = true /\ px img x y <> c.

(** [(x0, y0, x1, y1)] is the smallest rectangle, right and lower edges
    exclusive, that holds every pixel of [img] differing from [c]. *)
Definition bounding_box (img : Image) (c : pixel) (box : Z * Z * Z * Z) : Prop :=
  let '(x0, y0, x1, y1) := box in
  (forall x y, differs img c x y -> x0 <= x < x1 /\ y0 <= y < y1)
  /\ (exists y, differs img c x0 y)
  /\ (exists y, differs img c (x1 - 1) y)
  /\ (exists x, differs img c x y0)
  /\ (exists x, differs img c x (y1 - 1)).



(** ** Sample data *)

Definition sample_rgba : Image :=
  mk_image RGBA 2 1 [[[210; 220; 230; 17]; [10; 220; 230; 99]]] [] None.

Definition sample_transparent : Image :=
  mk_image RGBA 2 2 [[[1; 2; 3; 0]; [250; 250; 250; 0]];
                     [[0; 0; 0; 0]; [255; 0; 0; 0]]] [] None.

Definition sample_grey_opaque : Image :=
  mk_image RGBA 2 1 [[[200; 220; 230; 255]; [255; 255; 255; 255]]] [] None.

Definition sample_grey_transparent : Image :=
  mk_image RGBA 1 1 [[[255; 255; 255; 0]]] [] None.

Definition sample_rgb : Image :=
  mk_image RGB 1 1 [[[255; 255; 255]]] [] None.

Definition black : color := (0, 0, 0).

(** A 4 x 4 picture: a white frame around a 2 x 2 subject whose top-left
    three pixels are black and whose last pixel is dark grey. *)
Definition sample_framed : Image :=
  let c := [255; 255; 255] in
  let d := [0; 0; 0] in
  let e := [9; 9; 9] in
  mk_image RGB 4 4 [[c; c; c; c]; [c; d; d; c]; [c; d; e; c]; [c; c; c; c]] [] None.

(** A 4 x 3 picture with a single dark pixel off the corner. *)
Definition sample_dot : Image :=
  let c := [255; 255; 255] in
  let d := [0; 0; 0] in
  mk_image RGB 4 3 [[c; c; c; c]; [c; c; d; c]; [c; c; c; c]] [] None.

(** [os.path.splitext(path)[0]] on a POSIX system: the path is cut at the
    last dot of its last component, unless nothing but dots precedes that
    dot in the component. *)
Fixpoint last_index (c : ascii) (s : string) (i : nat) (found : option nat)
  : option nat :=
  match s with
  | EmptyString => found
  | String a s' => last_index c s' (S i) (if Ascii.eqb a c then Some i else found)
  end.

Fixpoint only_dots (s : string) : bool :=
  match s with
  | EmptyString => true
  | String a s' => Ascii.eqb a "." && only_dots s'
  end.

Definition drop_extension (path : string) : string :=
  let start := match last_index "/" path 0 None with
               | Some i => S i
               | None => O
               end in
  match last_index "." path 0 None with
  | Some d =>
      if (start <=? d)%nat && negb (only_dots (substring start (d - start) path))
      then substring 0 d path
      else path
  | None => path
  end.


(** A picture one pixel wide and 1001 pixels tall. *)
Definition sample_sliver : Image := uniform_image RGB 1 1001 [0; 0; 0].

(** [Image.resize] returns a copy when the requested size is the image's
    own, and otherwise refuses a size with a side below 1. *)
Definition resize_refusal : exn :=
  mk_exn ValueError "height and width must be > 0".

Definition resampler_rejects_empty (W : World) : Prop :=
  forall (img : Image) (sz : Z * Z),
    sz <> size img -> fst sz < 1 \/ snd sz < 1 ->
    image_resize W img sz = Raise resize_refusal.

(** A world with one decodable file, a resampler that checks the requested
    size as the library does and returns a blank image of that size, and a
    disk that accepts every write. *)
Definition sample_world : World :=
  mk_world
    (fun path => if String.eqb path "in/good.png" then Ok sample_framed
                 else Raise (mk_exn UnidentifiedImageError
                               "cannot identify image file"))
    (fun img sz =>
       if (fst sz =? width img) && (snd sz =? height img) then Ok img
       else if (fst sz <? 1) || (snd sz <? 1) then Raise resize_refusal
       else Ok (uniform_image (mode img) (fst sz) (snd sz)
                              (repeat 0 (bands (mode img)))))
    (fun _ _ => Ok tt)
    drop_extension
    (fun dir name => (dir ++ "/" ++ name)%string)
    (fun _ => true)
    (fun _ => Ok tt)
    (fun _ => Ok ["good.png"; "notes.txt"; "bad.PNG"]%string).

(** ** Bounding boxes in a mode with an alpha band *)

(** The pixel at [(x, y)] lies in the image and its alpha differs from the
    alpha of [c]. *)
Definition alpha_differs (img : Image) (c : pixel) (x y : Z) : Prop :=
  in_image img x y = true /\ alpha_of (px img x y) <> alpha_of c.

(** [(x0, y0, x1, y1)] is the smallest rectangle, right and lower edges
    exclusive, that holds every pixel of [img] whose alpha differs from the
    alpha of [c]. *)
Definition alpha_bounding_box (img : Image) (c : pixel) (box : Z * Z * Z * Z)
  : Prop :=
  let '(x0, y0, x1, y1) := box in
  (forall x y, alpha_differs img c x y -> x0 <= x < x1 /\ y0 <= y < y1)
  /\ (exists y, alpha_differs img c x0 y)
  /\ (exists y, alpha_differs img c (x1 - 1) y)
  /\ (exists x, alpha_differs img c x y0)
  /\ (exists x, alpha_differs img c x (y1 - 1)).

(** An opaque RGBA picture of one white and one black pixel, and a picture
    without pixels. *)
Definition sample_two_tone : Image :=
  mk_image RGBA 2 1 [[[255; 255; 255; 255]; [0; 0; 0; 255]]] [] None.

Definition sample_empty : Image := mk_image RGB 0 0 [] [] None.

(** ** Further notions and sample data *)

(** Every palette entry is an RGB triple of 8-bit values. *)
Definition palette_ok (img : Image) : bool :=
  forallb (pixel_ok RGB) (palette img).

(** A world whose input folder cannot be listed. *)
Definition sample_unlistable_world : World :=
  mk_world
    (image_open sample_world) (image_resize sample_world)
    (image_save sample_world) drop_extension (path_join sample_world)
    (fun _ => true) (fun _ => Ok tt)
    (fun _ => Raise (mk_exn OSError "No such file or directory")).

(* ================================================================== *)
(** * Rounding lemmas *)
(* ================================================================== *)

Module PyFloatFacts.
Import PyFloat.
Local Open Scope Q_scope.

Lemma two_neq_0 : ~ 2 == 0.
Proof. discriminate. Qed.

Lemma pow2_pos (e : Z) : 0 < 2 ^ e.
Proof. apply Qpower_0_lt. reflexivity. Qed.

Lemma pow2_add (a b : Z) : 2 ^ (a + b) == 2 ^ a * 2 ^ b.
Proof. apply Qpower_plus, two_neq_0. Qed.

Lemma pow2_le (a b : Z) : (a <= b)%Z -> 2 ^ a <= 2 ^ b.
Proof. intros H. apply Qpower_le_compat_l; [exact H | discriminate]. Qed.

Lemma pow2_succ (a : Z) : 2 ^ (a + 1) == 2 * 2 ^ a.
Proof. rewrite pow2_add. change (2 ^ 1) with 2. ring. Qed.

Lemma pow2_inject (n : Z) : (0 <= n)%Z -> inject_Z (2 ^ n) == 2 ^ n.
Proof. intros H. apply (Zpower_Qpower 2 n H). Qed.

(** A positive integer lies between the powers of two around its [log2]. *)
Lemma log2_bracket (n : Z) :
  (0 < n)%Z -> 2 ^ Z.log2 n <= inject_Z n /\ inject_Z n < 2 ^ (Z.log2 n + 1).
Proof.
  intros Hn.
  destruct (Z.log2_spec n Hn) as [Hlo Hhi].
  assert (H0 : (0 <= Z.log2 n)%Z) by apply Z.log2_nonneg.
  split.
  - rewrite <- pow2_inject by exact H0. rewrite <- Zle_Qle. exact Hlo.
  - rewrite <- pow2_inject by lia. rewrite <- Zlt_Qlt.
    replace (Z.log2 n + 1)%Z with (Z.succ (Z.log2 n)) by lia. exact Hhi.
Qed.

Lemma ilog2_spec (a : Q) :
  0 < a -> 2 ^ ilog2 a <= a /\ a < 2 ^ (ilog2 a + 1).
Proof.
  intros Ha. unfold ilog2.
  destruct a as [n d]. cbn [Qnum Qden].
  assert (Hn : (0 < n)%Z).
  { unfold Qlt in Ha. cbn in Ha. lia. }
  destruct (log2_bracket n Hn) as [Hn1 Hn2].
  destruct (log2_bracket (Zpos d) (Pos2Z.is_pos d)) as [Hd1 Hd2].
  set (ln := Z.log2 n) in *. set (ld := Z.log2 (Zpos d)) in *.
  assert (Hnd : n # d == inject_Z n / inject_Z (Zpos d)) by apply Qmake_Qdiv.
  assert (Hdpos : 0 < inject_Z (Zpos d)).
  { unfold Qlt. cbn. lia. }
  assert (Hq : (n # d) * inject_Z (Zpos d) == inject_Z n).
  { rewrite Hnd. field. intros E. rewrite E in Hdpos. discriminate. }
  assert (F1 : 2 ^ ln == 2 ^ (ln - ld) * 2 ^ ld).
  { rewrite <- pow2_add. replace (ln - ld + ld)%Z with ln by lia. reflexivity. }
  assert (F2 : 2 ^ (ln + 1) == 2 * 2 ^ ln) by apply pow2_succ.
  assert (F3 : 2 ^ (ln - ld) == 2 * 2 ^ (ln - ld - 1)).
  { rewrite <- pow2_succ. replace (ln - ld - 1 + 1)%Z with (ln - ld)%Z by lia.
    reflexivity. }
  assert (F4 : 2 ^ (ld + 1) == 2 * 2 ^ ld) by apply pow2_succ.
  pose proof (pow2_pos (ln - ld - 1)) as Q2.
  pose proof (pow2_pos ld) as Q3.
  destruct (Qle_bool (2 ^ (ln - ld)) (n # d)) eqn:E.
  - apply Qle_bool_iff in E.
    assert (F5 : 2 ^ (ln - ld + 1) == 2 * 2 ^ (ln - ld)) by apply pow2_succ.
    revert Hn1 Hn2 Hd1 Hd2 Hq F1 F2 F3 F4 F5 Q2 Q3 Hdpos E.
    generalize (2 ^ (ln + 1)) (2 ^ ln) (2 ^ (ld + 1)) (2 ^ ld)
               (2 ^ (ln - ld - 1)) (inject_Z n) (inject_Z (Zpos d))
               (2 ^ (ln - ld + 1)).
    generalize (2 ^ (ln - ld)) (n # d).
    intros X A U1 U0 V1 Z1 Y N D X2 Hn1 Hn2 Hd1 Hd2 Hq F1 F2 F3 F4 F5 Q2 Q3 Hdpos E.
    split; [exact E|].
    apply Qnot_le_lt. intros C.
    assert (K1 : 2 * X * D <= A * D) by nra.
    assert (K2 : 2 * X * Z1 <= 2 * X * D) by nra.
    nra.
  - assert (E' : n # d < 2 ^ (ln - ld)).
    { apply Qnot_le_lt. intros C. apply Qle_bool_iff in C. congruence. }
    replace (ln - ld - 1 + 1)%Z with (ln - ld)%Z by lia.
    revert Hn1 Hn2 Hd1 Hd2 Hq F1 F2 F3 F4 Q2 Q3 Hdpos E'. clear E.
    generalize (2 ^ (ln + 1)) (2 ^ ln) (2 ^ (ld + 1)) (2 ^ ld)
               (2 ^ (ln - ld - 1)) (inject_Z n) (inject_Z (Zpos d)).
    generalize (2 ^ (ln - ld)) (n # d).
    intros X A U1 U0 V1 Z1 Y N D Hn1 Hn2 Hd1 Hd2 Hq F1 F2 F3 F4 Q2 Q3 Hdpos E'.
    split; [| exact E'].
    apply Qnot_lt_le. intros C.
    assert (K1 : A * D < Y * D) by nra.
    assert (K2 : Y * D < Y * (2 * Z1)) by nra.
    nra.
Qed.

Lemma rne_spec (s : Q) :
  s - (1 # 2) <= inject_Z (rne s) /\ inject_Z (rne s) <= s + (1 # 2).
Proof.
  unfold rne.
  pose proof (Qfloor_le s) as Hlo.
  pose proof (Qlt_floor s) as Hhi.
  rewrite inject_Z_plus in Hhi. change (inject_Z 1) with 1 in Hhi.
  assert (Hsucc : inject_Z (Qfloor s + 1) == inject_Z (Qfloor s) + 1).
  { rewrite inject_Z_plus. reflexivity. }
  destruct (Qcompare (s - inject_Z (Qfloor s)) (1 # 2)) eqn:E.
  - apply Qeq_alt in E.
    destruct (Z.even (Qfloor s)); [| rewrite Hsucc]; split; lra.
  - apply Qlt_alt in E. split; lra.
  - apply Qgt_alt in E. rewrite Hsucc. split; lra.
Qed.

Lemma u53_pow : 2 ^ (-53) == u53.
Proof. reflexivity. Qed.

(** In the normal range rounding succeeds with relative error at most
    [u53]. *)
Lemma round53_bound (q : Q) :
  2 ^ (-1022) <= q -> q < 2 ^ 1023 ->
  exists r, round53 q = Some r /\ q * (1 - u53) <= r /\ r <= q * (1 + u53).
Proof.
  intros Hlo Hhi.
  assert (Hpos : 0 < q).
  { apply Qlt_le_trans with (2 ^ (-1022)); [apply pow2_pos | exact Hlo]. }
  unfold round53.
  assert (E0 : Qeq_bool q 0 = false).
  { destruct (Qeq_bool q 0) eqn:E; [| reflexivity].
    apply Qeq_bool_iff in E. rewrite E in Hpos. discriminate. }
  rewrite E0.
  assert (Eabs : Qabs q = q).
  { destruct q as [n d]. unfold Qlt in Hpos. cbn in Hpos.
    cbn. f_equal. lia. }
  rewrite Eabs.
  destruct (ilog2_spec q Hpos) as [L1 L2].
  set (l := ilog2 q) in *.
  assert (Hl : (-1022 <= l)%Z).
  { destruct (Z_le_gt_dec (-1022) l) as [H | H]; [exact H | exfalso].
    assert (2 ^ (l + 1) <= 2 ^ (-1022)) by (apply pow2_le; lia).
    lra. }
  assert (Hl' : (l <= 1022)%Z).
  { destruct (Z_le_gt_dec l 1022) as [H | H]; [exact H | exfalso].
    assert (2 ^ 1023 <= 2 ^ l) by (apply pow2_le; lia).
    lra. }
  rewrite (Z.max_l (l - 52) (-1074)) by lia.
  set (e := (l - 52)%Z).
  destruct (rne_spec (q / 2 ^ e)) as [R1 R2].
  set (m := inject_Z (rne (q / 2 ^ e))) in *.
  pose proof (pow2_pos e) as He.
  assert (Hs : q / 2 ^ e * 2 ^ e == q).
  { field. intros C. rewrite C in He. discriminate. }
  assert (Hle : 2 ^ l == 2 ^ e * 2 ^ 53 * (1 # 2)).
  { change (2 ^ 53 * (1 # 2)) with (2 ^ 53 * (1 # 2)).
    assert (H52 : 2 ^ l == 2 ^ e * 2 ^ 52).
    { rewrite <- pow2_add. unfold e. replace (l - 52 + 52)%Z with l by lia.
      reflexivity. }
    rewrite H52. assert (2 ^ 52 == 2 ^ 53 * (1 # 2)) by reflexivity. nra. }
  assert (Hu : u53 * 2 ^ 53 == 1) by reflexivity.
  assert (H1023 : 2 ^ 1024 == 2 * 2 ^ 1023) by reflexivity.
  assert (Hu1 : u53 < 1) by reflexivity.
  assert (Hu0 : 0 < u53) by reflexivity.
  revert R1 R2 He Hs Hle Hu H1023 L1 Hhi Hpos Hu0 Hu1.
  generalize (2 ^ 1024) (2 ^ 1023) (2 ^ 53) (2 ^ l) (2 ^ e) (q / 2 ^ e) m u53.
  intros T1024 T1023 T53 Tl Te s M u R1 R2 He Hs Hle Hu H1023 L1 Hhi Hpos Hu0 Hu1.
  assert (B1 : q - Te * (1 # 2) <= M * Te) by nra.
  assert (B2 : M * Te <= q + Te * (1 # 2)) by nra.
  assert (B3 : Te * (1 # 2) <= q * u).
  { assert (Te * (1 # 2) == Tl * u) by nra. nra. }
  assert (Hov : Qle_bool T1024 (M * Te) = false).
  { destruct (Qle_bool T1024 (M * Te)) eqn:E; [| reflexivity].
    apply Qle_bool_iff in E. exfalso. nra. }
  rewrite Hov.
  assert (Hsg : Qle_bool 0 q = true) by (apply Qle_bool_iff; lra).
  rewrite Hsg.
  exists (M * Te). split; [reflexivity |]. split; nra.
Qed.

(** The rational model and the Standard Library's IEEE 754 model compute
    the same values: on every size up to 20 x 20 with the default and a small
    max_size, and on sizes that exercise large integers, subnormal results,
    ties, negative operands and the largest finite value. *)
Lemma round53_agrees_with_SpecFloat :
  forallb (fun w => forallb (fun h =>
      agrees_with_SpecFloat ((w + 1)%Z, (h + 1)%Z, 500%Z)
      && agrees_with_SpecFloat ((w + 1)%Z, (h + 1)%Z, (w + 2 * h + 1)%Z))
    (map Z.of_nat (seq 0 20))) (map Z.of_nat (seq 0 20)) = true
  /\ forallb agrees_with_SpecFloat
       [(9, 7, 9); (25, 3, 500); (800, 600, 500); (1, 1001, 500);
        (2 ^ 80 + 1, 3, 2 ^ 70 + 5); (3, 2 ^ 1023 - 5, 1);
        (5, 2 ^ 1023 + 12345, 0); (2 ^ 1023 + 77, 3, 2 ^ 60 + 1);
        (2 ^ 53 + 1, 1, 2 ^ 53 + 3); (2 ^ 1024 - 2 ^ 970 - 1, 1, 1);
        (-9, 7, -9); (-1, 3, 2 ^ 200)]%Z = true.
Proof. split; vm_compute; reflexivity. Qed.

End PyFloatFacts.

Module ResizeFacts.
Import PyFloat PyFloatFacts.
Local Open Scope Q_scope.

Lemma floor_unit (x : Q) : 0 <= x -> x < 1 -> Qfloor x = 0%Z.
Proof.
  intros H0 H1.
  pose proof (Qfloor_le x) as Hlo.
  pose proof (Qlt_floor x) as Hhi.
  assert (A : inject_Z (Qfloor x) < inject_Z 1) by (change (inject_Z 1) with 1; lra).
  assert (B : inject_Z 0 < inject_Z (Qfloor x + 1)) by (change (inject_Z 0) with 0; lra).
  rewrite <- Zlt_Qlt in A, B. lia.
Qed.

Lemma mul_mono (x X y Y : Q) :
  0 <= x /\ x <= X -> 0 <= y /\ y <= Y -> x * y <= X * Y.
Proof.
  intros [Hx HxX] [Hy HyY].
  apply Qle_trans with (X * y).
  - apply Qmult_le_compat_r; assumption.
  - rewrite (Qmult_comm X y), (Qmult_comm X Y).
    apply Qmult_le_compat_r; [assumption |].
    apply Qle_trans with x; assumption.
Qed.

Lemma to_int_unit (x : Q) : 0 <= x -> x < 1 -> to_int x = 0%Z.
Proof.
  intros H0 H1. unfold to_int.
  assert (E : Qle_bool 0 x = true) by (apply Qle_bool_iff; exact H0).
  rewrite E. apply floor_unit; assumption.
Qed.

Lemma normal_lo (q : Q) : 2 ^ (-64) <= q -> 2 ^ (-1022) <= q.
Proof.
  intros H. apply Qle_trans with (2 ^ (-64)); [| exact H].
  apply pow2_le. lia.
Qed.

Lemma normal_hi (q : Q) : q < 2 ^ 64 -> q < 2 ^ 1023.
Proof.
  intros H. apply Qlt_le_trans with (2 ^ 64); [exact H |].
  apply pow2_le. lia.
Qed.

(** Rounding in the range that image sizes stay in. *)
Lemma round53_mid (q : Q) :
  (1 # 18446744073709551616) <= q -> q < 18446744073709551616 ->
  exists r, round53 q = Some r /\ q * (1 - u53) <= r /\ r <= q * (1 + u53).
Proof.
  intros Hlo Hhi. apply round53_bound.
  - apply normal_lo. exact Hlo.
  - apply normal_hi. exact Hhi.
Qed.

Lemma inject_pos (n : Z) : (1 <= n)%Z -> 1 <= inject_Z n.
Proof. intros H. change 1 with (inject_Z 1). rewrite <- Zle_Qle. exact H. Qed.

Lemma inject_lt_2_31 (n : Z) : (n < 2 ^ 31)%Z -> inject_Z n <= 2147483647.
Proof.
  intros H. change 2147483647 with (inject_Z 2147483647).
  rewrite <- Zle_Qle. lia.
Qed.

Lemma narrow_width_zero (w h max_size : Z) :
  (0 < w)%Z -> (w <= h)%Z -> (h < 2 ^ 31)%Z -> (0 <= max_size)%Z ->
  (w * max_size < h)%Z ->
  resize_size (w, h) max_size = Ok (0%Z, max_size).
Proof.
  intros Hw Hwh Hh Hms Hprod.
  unfold resize_size, int_truediv.
  assert (E1 : (h =? 0)%Z = false) by (apply Z.eqb_neq; lia).
  rewrite E1.
  assert (W1 := inject_pos w ltac:(lia)).
  assert (H1 := inject_pos h ltac:(lia)).
  assert (H2 := inject_lt_2_31 h Hh).
  assert (WH : inject_Z w <= inject_Z h) by (rewrite <- Zle_Qle; exact Hwh).
  assert (Hq : inject_Z w / inject_Z h * inject_Z h == inject_Z w).
  { field. lra. }
  set (q0 := inject_Z w / inject_Z h) in *.
  assert (Q0lo : (1 # 2147483648) <= q0).
  { assert (1 <= q0 * 2147483648) by nra. lra. }
  assert (Q0hi : q0 <= 1) by nra.
  destruct (round53_mid q0) as (ar & Ear & A1 & A2); [lra | lra |].
  unfold rounded at 1. rewrite Ear. cbn [bind].
  assert (E2 : (h <? w)%Z = false) by (apply Z.ltb_ge; exact Hwh).
  rewrite E2.
  unfold int_mul_float, of_int.
  destruct (Z.eq_dec max_size 0) as [-> | Hnz].
  - (* max_size = 0 *)
    cbn [inject_Z]. unfold rounded at 1.
    change (round53 (inject_Z 0)) with (Some 0). cbn [bind].
    unfold mul, rounded, round53.
    assert (E3 : Qeq_bool (0 * ar) 0 = true) by (apply Qeq_bool_iff; ring).
    rewrite E3. cbn [bind]. reflexivity.
  - assert (M1 := inject_pos max_size ltac:(lia)).
    assert (MW : inject_Z w * inject_Z max_size <= inject_Z h - 1).
    { rewrite <- inject_Z_mult.
      assert (E : inject_Z h - 1 == inject_Z (h - 1)).
      { unfold Z.sub. rewrite inject_Z_plus. reflexivity. }
      rewrite E. rewrite <- Zle_Qle. lia. }
    assert (M2 : inject_Z max_size <= 2147483647) by nra.
    destruct (round53_mid (inject_Z max_size)) as (m & Em & B1 & B2); [lra | lra |].
    unfold rounded at 1. rewrite Em. cbn [bind].
    (* the exact product before the last rounding *)
    set (t := inject_Z max_size * q0).
    assert (T0 : (1 # 2147483648) <= t).
    { unfold t. apply Qle_trans with (1 * q0); [lra |].
      apply Qmult_le_compat_r; lra. }
    assert (T1 : t * inject_Z h <= inject_Z h - 1).
    { unfold t. rewrite <- Qmult_assoc, Hq, Qmult_comm. exact MW. }
    assert (T2 : t <= 1 - (1 # 2147483648)).
    { assert (K0 : 1 <= (1 - t) * inject_Z h) by lra.
      assert (K1 : 0 <= 1 - t).
      { apply Qnot_lt_le. intros C.
        assert ((1 - t) * inject_Z h <= 0 * inject_Z h).
        { apply Qmult_le_compat_r; lra. }
        lra. }
      assert (K2 : (1 - t) * inject_Z h <= (1 - t) * 2147483648).
      { apply mul_mono; lra. }
      lra. }
    assert (Mpos : 0 < m).
    { apply Qlt_le_trans with (inject_Z max_size * (1 - u53)); [| exact B1].
      apply Qlt_le_trans with (1 * (1 - u53)); [reflexivity |].
      apply Qmult_le_compat_r; [exact M1 | discriminate]. }
    assert (P1 : t * ((1 - u53) * (1 - u53)) <= m * ar).
    { setoid_replace (t * ((1 - u53) * (1 - u53)))
        with (inject_Z max_size * (1 - u53) * (q0 * (1 - u53)))
        by (unfold t; ring).
      apply mul_mono.
      - split; [| exact B1].
        apply Qmult_le_0_compat; [lra | discriminate].
      - split; [| exact A1].
        apply Qmult_le_0_compat; [lra | discriminate]. }
    assert (P2 : m * ar <= t * ((1 + u53) * (1 + u53))).
    { setoid_replace (t * ((1 + u53) * (1 + u53)))
        with (inject_Z max_size * (1 + u53) * (q0 * (1 + u53)))
        by (unfold t; ring).
      apply mul_mono.
      - split; [lra | exact B2].
      - split; [| exact A2].
        apply Qle_trans with (q0 * (1 - u53)); [| exact A1].
        apply Qmult_le_0_compat; [lra | discriminate]. }
    assert (P3 : (1 # 4294967296) <= m * ar).
    { apply Qle_trans with (t * ((1 - u53) * (1 - u53))); [| exact P1].
      apply Qle_trans with ((1 # 2147483648) * ((1 - u53) * (1 - u53))).
      - unfold u53, Qle. vm_compute. discriminate.
      - apply Qmult_le_compat_r; [exact T0 | discriminate]. }
    assert (P4 : m * ar <= (1 - (1 # 2147483648)) * ((1 + u53) * (1 + u53))).
    { apply Qle_trans with (t * ((1 + u53) * (1 + u53))); [exact P2 |].
      apply Qmult_le_compat_r; [exact T2 | discriminate]. }
    destruct (round53_mid (m * ar)) as (x & Ex & C1 & C2).
    { apply Qle_trans with (1 # 4294967296); [discriminate | exact P3]. }
    { apply Qle_lt_trans with ((1 - (1 # 2147483648)) * ((1 + u53) * (1 + u53)));
        [exact P4 | reflexivity]. }
    unfold mul, rounded. rewrite Ex. cbn [bind].
    rewrite to_int_unit; [reflexivity | |].
    + apply Qle_trans with (m * ar * (1 - u53)); [| exact C1].
      apply Qmult_le_0_compat; [| discriminate].
      apply Qle_trans with (1 # 4294967296); [discriminate | exact P3].
    + apply Qle_lt_trans with (m * ar * (1 + u53)); [exact C2 |].
      apply Qle_lt_trans
        with ((1 - (1 # 2147483648)) * ((1 + u53) * (1 + u53)) * (1 + u53));
        [| reflexivity].
      apply Qmult_le_compat_r; [exact P4 | discriminate].
Qed.

End ResizeFacts.

Module ResizeBounds.
Import PyFloat PyFloatFacts ResizeFacts.
Local Open Scope Q_scope.

Lemma cancel_pos (a b c : Q) : 0 < c -> a * c <= b * c -> a <= b.
Proof. intros Hc H. apply (Qmult_le_r a b c Hc). exact H. Qed.

Lemma inject_div_mod (n d : Z) :
  (0 < d)%Z ->
  inject_Z n == inject_Z d * inject_Z (n / d) + inject_Z (n mod d).
Proof.
  intros Hd. rewrite <- inject_Z_mult, <- inject_Z_plus.
  rewrite <- (Z.div_mod n d) by lia. reflexivity.
Qed.

(** A value within relative distance [8 * u53] of the fraction [n / d],
    with [n] below [2 ^ 50], truncates to the integer quotient or to one
    less. *)
Lemma trunc_within_one (x t : Q) (n d : Z) :
  (0 < d)%Z -> (0 <= n)%Z -> (n < 2 ^ 50)%Z ->
  t * inject_Z d == inject_Z n ->
  t * (1 - 8 * u53) <= x -> x <= t * (1 + 8 * u53) ->
  (n / d - 1 <= to_int x <= n / d)%Z.
Proof.
  intros Hd Hn Hn50 Ht Hlo Hhi.
  assert (D1 : 1 <= inject_Z d) by (apply inject_pos; lia).
  assert (N0 : 0 <= inject_Z n).
  { change 0 with (inject_Z 0). rewrite <- Zle_Qle. exact Hn. }
  assert (N50 : inject_Z n <= 1125899906842623).
  { change 1125899906842623 with (inject_Z 1125899906842623).
    rewrite <- Zle_Qle. lia. }
  assert (T0 : 0 <= t).
  { apply (cancel_pos 0 t (inject_Z d)); [lra |]. rewrite Ht. lra. }
  pose proof (inject_div_mod n d Hd) as Hdm.
  pose proof (Z.mod_pos_bound n d Hd) as Hr.
  assert (R0 : 0 <= inject_Z (n mod d)).
  { change 0 with (inject_Z 0). rewrite <- Zle_Qle. lia. }
  assert (R1 : inject_Z (n mod d) <= inject_Z d - 1).
  { assert (E : inject_Z d - 1 == inject_Z (d - 1)).
    { unfold Z.sub. rewrite inject_Z_plus. reflexivity. }
    rewrite E. rewrite <- Zle_Qle. lia. }
  set (k := (n / d)%Z) in *.
  set (K := inject_Z k) in *. set (R := inject_Z (n mod d)) in *.
  set (N := inject_Z n) in *. set (D := inject_Z d) in *.
  assert (U8 : 8 * u53 * 1125899906842623 < 1) by reflexivity.
  assert (U0 : 0 < 8 * u53) by reflexivity.
  set (c := 8 * u53) in *.
  assert (X0 : 0 <= x).
  { apply Qle_trans with (t * (1 - c)); [| exact Hlo].
    apply Qmult_le_0_compat; [exact T0 |].
    unfold c. discriminate. }
  assert (CN : c * N < 1).
  { apply Qle_lt_trans with (c * 1125899906842623); [| exact U8].
    rewrite (Qmult_comm c N), (Qmult_comm c 1125899906842623).
    apply Qmult_le_compat_r; lra. }
  (* x * D stays strictly between N - 1 and N + 1 *)
  assert (XD1 : x * D <= N + c * N).
  { apply Qle_trans with (t * (1 + c) * D).
    - apply Qmult_le_compat_r; lra.
    - setoid_replace (t * (1 + c) * D) with (t * D + c * (t * D)) by ring.
      rewrite Ht. lra. }
  assert (XD2 : N - c * N <= x * D).
  { apply Qle_trans with (t * (1 - c) * D).
    - setoid_replace (t * (1 - c) * D) with (t * D - c * (t * D)) by ring.
      rewrite Ht. lra.
    - apply Qmult_le_compat_r; lra. }
  unfold to_int.
  assert (E : Qle_bool 0 x = true) by (apply Qle_bool_iff; exact X0).
  rewrite E.
  pose proof (Qfloor_le x) as F1. pose proof (Qlt_floor x) as F2.
  rewrite inject_Z_plus in F2. change (inject_Z 1) with 1 in F2.
  set (F := inject_Z (Qfloor x)) in *.
  (* upper bound: F <= x < K + 1 *)
  assert (UP : F < K + 1).
  { apply Qle_lt_trans with x; [exact F1 |].
    apply Qnot_le_lt. intros C.
    assert ((K + 1) * D <= x * D) by (apply Qmult_le_compat_r; lra).
    assert ((K + 1) * D == D * K + D) by ring. lra. }
  (* lower bound: K - 2 < F *)
  assert (LO : K - 2 < F).
  { apply Qnot_le_lt. intros C.
    assert (x < K - 1) by lra.
    assert (x * D <= (K - 1) * D) by (apply Qmult_le_compat_r; lra).
    assert ((K - 1) * D == D * K - D) by ring. lra. }
  assert (UPz : (Qfloor x < k + 1)%Z).
  { rewrite Zlt_Qlt. rewrite inject_Z_plus. exact UP. }
  assert (LOz : (k - 2 < Qfloor x)%Z).
  { rewrite Zlt_Qlt. unfold Z.sub. rewrite inject_Z_plus. exact LO. }
  lia.
Qed.

Lemma inject_lt_pow (n : Z) (b : Q) (B : Z) :
  b = inject_Z B -> (n <= B)%Z -> inject_Z n <= b.
Proof. intros -> H. rewrite <- Zle_Qle. exact H. Qed.

(** The relative error of three roundings in a row stays below
    [8 * u53]. *)
Lemma three_roundings_up (t p x : Q) :
  0 <= t -> p <= t * ((1 + u53) * (1 + u53)) -> x <= p * (1 + u53) ->
  x <= t * (1 + 8 * u53).
Proof.
  intros Ht Hp Hx.
  apply Qle_trans with (p * (1 + u53)); [exact Hx |].
  apply Qle_trans with (t * ((1 + u53) * (1 + u53)) * (1 + u53)).
  - apply Qmult_le_compat_r; [exact Hp | discriminate].
  - rewrite <- Qmult_assoc. rewrite (Qmult_comm t), (Qmult_comm t).
    apply Qmult_le_compat_r; [| exact Ht].
    unfold u53, Qle. vm_compute. discriminate.
Qed.

Lemma three_roundings_down (t p x : Q) :
  0 <= t -> t * ((1 - u53) * (1 - u53)) <= p -> p * (1 - u53) <= x ->
  t * (1 - 8 * u53) <= x.
Proof.
  intros Ht Hp Hx.
  apply Qle_trans with (p * (1 - u53)); [| exact Hx].
  apply Qle_trans with (t * ((1 - u53) * (1 - u53)) * (1 - u53)).
  - rewrite <- Qmult_assoc. rewrite (Qmult_comm t), (Qmult_comm t).
    apply Qmult_le_compat_r; [| exact Ht].
    unfold u53, Qle. vm_compute. discriminate.
  - apply Qmult_le_compat_r; [exact Hp | discriminate].
Qed.

(** The free dimension the resizer computes is the proportional size
    rounded down, or one less; the other dimension is [max_size] itself and
    is the longer one. *)
Lemma resize_size_within_one (w h max_size : Z) :
  (0 < w < 2 ^ 31)%Z -> (0 < h < 2 ^ 31)%Z -> (0 < max_size)%Z ->
  (max_size * w < 2 ^ 50)%Z -> (max_size * h < 2 ^ 50)%Z ->
  exists free,
    resize_size (w, h) max_size
    = Ok (if (h <? w)%Z then (max_size, free) else (free, max_size))
    /\ (let exact := if (h <? w)%Z then (max_size * h / w)%Z
                     else (max_size * w / h)%Z in
        (exact - 1 <= free <= exact)%Z)
    /\ (free <= max_size)%Z.
Proof.
  intros Hw Hh Hms Hmw Hmh.
  unfold resize_size, int_truediv.
  assert (E1 : (h =? 0)%Z = false) by (apply Z.eqb_neq; lia).
  rewrite E1.
  assert (W1 := inject_pos w ltac:(lia)).
  assert (H1 := inject_pos h ltac:(lia)).
  assert (M1 := inject_pos max_size ltac:(lia)).
  assert (W2 := inject_lt_2_31 w ltac:(lia)).
  assert (H2 := inject_lt_2_31 h ltac:(lia)).
  assert (M2 : inject_Z max_size <= 1125899906842624).
  { apply (inject_lt_pow max_size _ 1125899906842624); [reflexivity | nia]. }
  set (W := inject_Z w) in *. set (H := inject_Z h) in *.
  set (MS := inject_Z max_size) in *.
  assert (Hq : W / H * H == W) by (field; lra).
  set (q0 := W / H) in *.
  assert (Q0lo : (1 # 2147483648) <= q0).
  { apply (cancel_pos _ _ H); [lra |]. rewrite Hq.
    apply Qle_trans with ((1 # 2147483648) * 2147483647); [| lra].
    apply Qmult_le_l; [reflexivity | exact H2]. }
  assert (Q0hi : q0 <= 2147483647).
  { apply (cancel_pos _ _ H); [lra |]. rewrite Hq.
    apply Qle_trans with (2147483647 * 1); [lra |].
    apply Qmult_le_l; [reflexivity | exact H1]. }
  destruct (round53_mid q0) as (ar & Ear & A1 & A2); [lra | lra |].
  unfold rounded at 1. rewrite Ear. cbn [bind].
  destruct (round53_mid MS) as (m & Em & B1 & B2); [lra | lra |].
  assert (Hu : u53 == 1 # 9007199254740992) by reflexivity.
  assert (ARlo : (1 # 4294967296) <= ar).
  { apply Qle_trans with (q0 * (1 - u53)); [| exact A1].
    apply Qle_trans with ((1 # 2147483648) * (1 - u53)).
    - unfold u53, Qle. vm_compute. discriminate.
    - apply Qmult_le_compat_r; [exact Q0lo | discriminate]. }
  assert (ARhi : ar <= 4294967296).
  { apply Qle_trans with (q0 * (1 + u53)); [exact A2 |].
    apply Qle_trans with (2147483647 * (1 + u53)).
    - apply Qmult_le_compat_r; [exact Q0hi | discriminate].
    - unfold u53, Qle. vm_compute. discriminate. }
  assert (Mlo : (1 # 2) <= m).
  { apply Qle_trans with (MS * (1 - u53)); [| exact B1].
    apply Qle_trans with (1 * (1 - u53)).
    - unfold u53, Qle. vm_compute. discriminate.
    - apply Qmult_le_compat_r; [exact M1 | discriminate]. }
  assert (Mhi : m <= 2251799813685248).
  { apply Qle_trans with (MS * (1 + u53)); [exact B2 |].
    apply Qle_trans with (1125899906842624 * (1 + u53)).
    - apply Qmult_le_compat_r; [exact M2 | discriminate].
    - unfold u53, Qle. vm_compute. discriminate. }
  assert (MW : MS * W == inject_Z (max_size * w)).
  { unfold MS, W. rewrite inject_Z_mult. reflexivity. }
  assert (MH : MS * H == inject_Z (max_size * h)).
  { unfold MS, H. rewrite inject_Z_mult. reflexivity. }
  destruct (h <? w)%Z eqn:Ehw.
  - (* width is the longer side: max_size / aspect_ratio *)
    apply Z.ltb_lt in Ehw.
    unfold int_div_float, of_int. fold MS. unfold rounded at 1. rewrite Em.
    cbn [bind]. unfold div.
    assert (E0 : Qeq_bool ar 0 = false).
    { destruct (Qeq_bool ar 0) eqn:E; [| reflexivity].
      apply Qeq_bool_iff in E. lra. }
    rewrite E0.
    assert (Hp : m / ar * ar == m) by (field; lra).
    set (p := m / ar) in *.
    assert (P0 : 0 <= p).
    { apply (cancel_pos _ _ ar); [lra |]. rewrite Hp. lra. }
    assert (Plo : (1 # 18446744073709551616) <= p).
    { apply (cancel_pos _ _ ar); [lra |]. rewrite Hp.
      apply Qle_trans with ((1 # 18446744073709551616) * 4294967296); [| lra].
      apply Qmult_le_l; [reflexivity | exact ARhi]. }
    assert (Q0one : 1 <= q0).
    { apply (cancel_pos _ _ H); [lra |]. rewrite Hq.
      assert (H <= W) by (unfold H, W; rewrite <- Zle_Qle; lia). lra. }
    assert (ARhalf : (1 # 2) <= ar).
    { apply Qle_trans with (q0 * (1 - u53)); [| exact A1].
      apply Qle_trans with (1 * (1 - u53)); [discriminate |].
      apply Qmult_le_compat_r; [exact Q0one | discriminate]. }
    assert (Phi : p < 18446744073709551616).
    { apply Qle_lt_trans with 4503599627370496; [| reflexivity].
      apply (cancel_pos _ _ (1 # 2)); [reflexivity |].
      apply Qle_trans with (p * ar).
      - rewrite (Qmult_comm p), (Qmult_comm p).
        apply Qmult_le_compat_r; [exact ARhalf | exact P0].
      - rewrite Hp. apply Qle_trans with 2251799813685248; [exact Mhi |].
        discriminate. }
    destruct (round53_mid p Plo Phi) as (x & Ex & C1 & C2).
    unfold rounded. rewrite Ex. cbn [bind].
    exists (to_int x). split; [reflexivity |].
    (* t = max_size * h / w, and max_size = t * q0 *)
    set (t := MS * H / W).
    assert (Ht : t * W == inject_Z (max_size * h)).
    { rewrite <- MH. unfold t. field. lra. }
    assert (Htq : t * q0 == MS).
    { unfold t, q0. field. lra. }
    assert (T0 : 0 <= t).
    { apply (cancel_pos _ _ W); [lra |]. rewrite Ht, <- MH.
      rewrite Qmult_0_l. apply Qmult_le_0_compat; lra. }
    assert (Q0pos : 0 < q0) by lra.
    (* p * (1 - u) <= t * (1 + u)  and  t * (1 - u) <= p * (1 + u) *)
    assert (PU : p * (1 - u53) <= t * (1 + u53)).
    { apply (cancel_pos _ _ q0 Q0pos).
      apply Qle_trans with (p * ar).
      - setoid_replace (p * (1 - u53) * q0) with (p * (q0 * (1 - u53))) by ring.
        rewrite (Qmult_comm p), (Qmult_comm p).
        apply Qmult_le_compat_r; [exact A1 | exact P0].
      - rewrite Hp.
        setoid_replace (t * (1 + u53) * q0) with (t * q0 * (1 + u53)) by ring.
        rewrite Htq. exact B2. }
    assert (PL : t * (1 - u53) <= p * (1 + u53)).
    { apply (cancel_pos _ _ q0 Q0pos).
      apply Qle_trans with (p * ar).
      - rewrite Hp.
        setoid_replace (t * (1 - u53) * q0) with (t * q0 * (1 - u53)) by ring.
        rewrite Htq. exact B1.
      - setoid_replace (p * (1 + u53) * q0) with (p * (q0 * (1 + u53))) by ring.
        rewrite (Qmult_comm p), (Qmult_comm p).
        apply Qmult_le_compat_r; [exact A2 | exact P0]. }
    assert (XU : x <= t * (1 + 8 * u53)).
    { apply (cancel_pos _ _ (1 - u53)); [reflexivity |].
      apply Qle_trans with (p * (1 + u53) * (1 - u53)).
      - apply Qmult_le_compat_r; [exact C2 | discriminate].
      - apply Qle_trans with (t * (1 + u53) * (1 + u53)).
        + setoid_replace (p * (1 + u53) * (1 - u53))
            with (p * (1 - u53) * (1 + u53)) by ring.
          apply Qmult_le_compat_r; [exact PU | discriminate].
        + rewrite <- !Qmult_assoc. rewrite (Qmult_comm t), (Qmult_comm t).
          apply Qmult_le_compat_r; [| exact T0].
          unfold u53, Qle. vm_compute. discriminate. }
    assert (XL : t * (1 - 8 * u53) <= x).
    { apply (cancel_pos _ _ (1 + u53)); [reflexivity |].
      apply Qle_trans with (p * (1 - u53) * (1 + u53)).
      - apply Qle_trans with (t * (1 - u53) * (1 - u53)).
        + rewrite <- !Qmult_assoc. rewrite (Qmult_comm t), (Qmult_comm t).
          apply Qmult_le_compat_r; [| exact T0].
          unfold u53, Qle. vm_compute. discriminate.
        + setoid_replace (p * (1 - u53) * (1 + u53))
            with (p * (1 + u53) * (1 - u53)) by ring.
          apply Qmult_le_compat_r; [exact PL | discriminate].
      - apply Qmult_le_compat_r; [exact C1 | discriminate]. }
    pose proof (trunc_within_one x t (max_size * h) w ltac:(lia) ltac:(nia)
                  Hmh Ht XL XU) as Hone.
    split; [exact Hone |].
    assert ((max_size * h / w <= max_size)%Z).
    { apply Z.div_le_upper_bound; nia. }
    lia.
  - (* height is the longer side, or the image is square *)
    apply Z.ltb_ge in Ehw.
    unfold int_mul_float, of_int. fold MS. unfold rounded at 1. rewrite Em.
    cbn [bind]. unfold mul.
    set (p := m * ar).
    assert (P0 : 0 <= p) by (apply Qmult_le_0_compat; lra).
    assert (Plo : (1 # 18446744073709551616) <= p).
    { apply Qle_trans with ((1 # 2) * (1 # 4294967296)); [discriminate |].
      apply mul_mono; split; (discriminate || assumption). }
    assert (Q0one : q0 <= 1).
    { apply (cancel_pos _ _ H); [lra |]. rewrite Hq.
      assert (W <= H) by (unfold H, W; rewrite <- Zle_Qle; lia). lra. }
    assert (ARtwo : ar <= 2).
    { apply Qle_trans with (q0 * (1 + u53)); [exact A2 |].
      apply Qle_trans with (1 * (1 + u53)); [| discriminate].
      apply Qmult_le_compat_r; [exact Q0one | discriminate]. }
    assert (Phi : p < 18446744073709551616).
    { apply Qle_lt_trans with (2251799813685248 * 2); [| reflexivity].
      apply mul_mono; split; (lra || assumption). }
    destruct (round53_mid p Plo Phi) as (x & Ex & C1 & C2).
    unfold rounded. rewrite Ex. cbn [bind].
    exists (to_int x). split; [reflexivity |].
    set (t := MS * q0).
    assert (Ht : t * H == inject_Z (max_size * w)).
    { rewrite <- MW. unfold t. rewrite <- Qmult_assoc, Hq. reflexivity. }
    assert (T0 : 0 <= t) by (apply Qmult_le_0_compat; lra).
    assert (PU : p <= t * ((1 + u53) * (1 + u53))).
    { setoid_replace (t * ((1 + u53) * (1 + u53)))
        with (MS * (1 + u53) * (q0 * (1 + u53))) by (unfold t; ring).
      apply mul_mono; split; (lra || assumption). }
    assert (PL : t * ((1 - u53) * (1 - u53)) <= p).
    { setoid_replace (t * ((1 - u53) * (1 - u53)))
        with (MS * (1 - u53) * (q0 * (1 - u53))) by (unfold t; ring).
      apply mul_mono; (split; [| assumption]);
        (apply Qmult_le_0_compat; [lra | discriminate]). }
    pose proof (three_roundings_up t p x T0 PU C2) as XU.
    pose proof (three_roundings_down t p x T0 PL C1) as XL.
    pose proof (trunc_within_one x t (max_size * w) h ltac:(lia) ltac:(nia)
                  Hmw Ht XL XU) as Hone.
    split; [exact Hone |].
    assert ((max_size * w / h <= max_size)%Z).
    { apply Z.div_le_upper_bound; nia. }
    lia.
Qed.

End ResizeBounds.

(* ================================================================== *)
(** * Rasters: lists, tabulation and well-formedness *)
(* ================================================================== *)

Lemma zrange_length (n : Z) : length (zrange n) = Z.to_nat n.
Proof. unfold zrange. rewrite length_map, length_seq. reflexivity. Qed.

Lemma zrange_nth (n : Z) (i : nat) :
  (i < Z.to_nat n)%nat -> nth i (zrange n) 0 = Z.of_nat i.
Proof.
  intros H. unfold zrange.
  change 0 with (Z.of_nat 0). rewrite map_nth.
  rewrite seq_nth by exact H. reflexivity.
Qed.

Lemma in_zrange (n x : Z) : In x (zrange n) <-> 0 <= x < n.
Proof.
  unfold zrange. rewrite in_map_iff. split.
  - intros (i & <- & Hi). apply in_seq in Hi. lia.
  - intros H. exists (Z.to_nat x). split; [lia |]. apply in_seq. lia.
Qed.

Lemma nth_map_in {A B : Type} (f : A -> B) (l : list A) (i : nat) (da : A) (db : B) :
  (i < length l)%nat -> nth i (map f l) db = f (nth i l da).
Proof.
  intros H. rewrite (nth_indep (map f l) db (f da)).
  - apply map_nth.
  - rewrite length_map. exact H.
Qed.

Lemma nth_tabulate (w h : Z) (f : Z -> Z -> pixel) (x y : Z) :
  0 <= x < w -> 0 <= y < h ->
  nth (Z.to_nat x) (nth (Z.to_nat y) (tabulate w h f) []) [] = f x y.
Proof.
  intros Hx Hy. unfold tabulate.
  rewrite (nth_map_in _ (zrange h) (Z.to_nat y) 0 [])
    by (rewrite zrange_length; lia).
  cbv beta.
  rewrite nth_map_in with (da := 0) by (rewrite zrange_length; lia).
  rewrite !zrange_nth by lia. f_equal; lia.
Qed.

Lemma tabulate_ext (w h : Z) (f g : Z -> Z -> pixel) :
  (forall x y, 0 <= x < w -> 0 <= y < h -> f x y = g x y) ->
  tabulate w h f = tabulate w h g.
Proof.
  intros H. unfold tabulate.
  apply map_ext_in. intros y Hy. apply in_zrange in Hy.
  apply map_ext_in. intros x Hx. apply in_zrange in Hx.
  apply H; assumption.
Qed.

Lemma map_tabulate (g : pixel -> pixel) (w h : Z) (f : Z -> Z -> pixel) :
  map (map g) (tabulate w h f) = tabulate w h (fun x y => g (f x y)).
Proof.
  unfold tabulate. rewrite map_map. apply map_ext. intros y.
  rewrite map_map. reflexivity.
Qed.

Lemma in_image_iff (img : Image) (x y : Z) :
  in_image img x y = true <-> (0 <= x < width img /\ 0 <= y < height img).
Proof. unfold in_image. lia. Qed.

Lemma px_tabulate (m : Mode) (w h : Z) (f : Z -> Z -> pixel) pal tr (x y : Z) :
  0 <= x < w -> 0 <= y < h ->
  px (mk_image m w h (tabulate w h f) pal tr) x y = f x y.
Proof. intros Hx Hy. unfold px. cbn [rows]. apply nth_tabulate; assumption. Qed.

(** Mapping a pixel function that fixes the empty pixel over the rows acts
    on every pixel, inside the image or not. *)
Lemma px_map (g : pixel -> pixel) (m : Mode) (img : Image) pal tr (x y : Z) :
  g [] = [] ->
  px (mk_image m (width img) (height img) (map (map g) (rows img)) pal tr) x y
  = g (px img x y).
Proof.
  intros Hg. unfold px. cbn [rows].
  change (@nil pixel) with (map g []) at 1. rewrite map_nth.
  rewrite <- Hg at 1. apply map_nth.
Qed.

Lemma wf_image_spec (img : Image) :
  wf_image img = true ->
  0 <= width img /\ 0 <= height img /\
  length (rows img) = Z.to_nat (height img) /\
  forall row, In row (rows img) ->
    length row = Z.to_nat (width img) /\
    forall p, In p row -> pixel_ok (mode img) p = true.
Proof.
  unfold wf_image. rewrite !andb_true_iff.
  intros [[[Hw Hh] Hlen] Hrows].
  repeat split; try lia.
  - apply Nat.eqb_eq. exact Hlen.
  - rewrite forallb_forall in Hrows. specialize (Hrows row H).
    apply andb_true_iff in Hrows. apply Nat.eqb_eq. tauto.
  - rewrite forallb_forall in Hrows. specialize (Hrows row H).
    apply andb_true_iff in Hrows. destruct Hrows as [_ Hp].
    rewrite forallb_forall in Hp. exact Hp.
Qed.


Lemma wf_pixel (img : Image) (x y : Z) :
  wf_image img = true -> in_image img x y = true ->
  pixel_ok (mode img) (px img x y) = true.
Proof.
  intros Hwf Hin. apply in_image_iff in Hin. destruct Hin as [Hx Hy].
  destruct (wf_image_spec img Hwf) as (_ & _ & Hlen & Hrows).
  assert (Hrow : In (nth (Z.to_nat y) (rows img) []) (rows img))
    by (apply nth_In; lia).
  destruct (Hrows _ Hrow) as [Hl Hp].
  apply Hp. unfold px. apply nth_In. lia.
Qed.



Lemma pixel_ok_spec (m : Mode) (p : pixel) :
  pixel_ok m p = true ->
  length p = bands m /\ forall v, In v p -> 0 <= v <= 255.
Proof.
  unfold pixel_ok. rewrite andb_true_iff. intros [Hl Hb]. split.
  - apply Nat.eqb_eq. exact Hl.
  - intros v Hv. rewrite forallb_forall in Hb. specialize (Hb v Hv).
    unfold byte_ok in Hb. lia.
Qed.

Lemma pixel4 (p : pixel) :
  length p = 4%nat -> exists r g b a, p = [r; g; b; a].
Proof.
  destruct p as [| r [| g [| b [| a [| ? ?]]]]]; cbn; try discriminate.
  intros _. exists r, g, b, a. reflexivity.
Qed.

Lemma rgba_pixel (img : Image) (x y : Z) :
  wf_image img = true -> mode img = RGBA -> in_image img x y = true ->
  exists r g b a, px img x y = [r; g; b; a]
                  /\ 0 <= r <= 255 /\ 0 <= g <= 255 /\ 0 <= b <= 255 /\ 0 <= a <= 255.
Proof.
  intros Hwf Hm Hin.
  destruct (pixel_ok_spec _ _ (wf_pixel img x y Hwf Hin)) as [Hl Hb].
  rewrite Hm in Hl. destruct (pixel4 _ Hl) as (r & g & b & a & E).
  exists r, g, b, a. rewrite E in Hb. split; [exact E |].
  repeat split; apply Hb; cbn; tauto.
Qed.

(* ================================================================== *)
(** * The 8-bit blend *)
(* ================================================================== *)

Lemma div255_exact (x : Z) : 0 <= x <= 255 -> div255 (x * 255) = x.
Proof.
  intros H.
  assert (A : forallb (fun v => div255 (v * 255) =? v) (zrange 256) = true)
    by (vm_compute; reflexivity).
  rewrite forallb_forall in A.
  apply Z.eqb_eq. apply A. apply in_zrange. lia.
Qed.

Lemma blend8_transparent (in1 in2 : Z) : 0 <= in1 <= 255 -> blend8 0 in1 in2 = in1.
Proof.
  intros H. unfold blend8.
  replace (in1 * (255 - 0) + in2 * 0) with (in1 * 255) by lia.
  apply div255_exact. exact H.
Qed.

Lemma blend8_opaque (in1 in2 : Z) : 0 <= in2 <= 255 -> blend8 255 in1 in2 = in2.
Proof.
  intros H. unfold blend8.
  replace (in1 * (255 - 255) + in2 * 255) with (in2 * 255) by lia.
  apply div255_exact. exact H.
Qed.

Lemma blend8_same (mask v : Z) : 0 <= v <= 255 -> blend8 mask v v = v.
Proof.
  intros H. unfold blend8.
  replace (v * (255 - mask) + v * mask) with (v * 255) by lia.
  apply div255_exact. exact H.
Qed.

Lemma clip8_id (v : Z) : 0 <= v <= 255 -> clip8 v = v.
Proof. unfold clip8. lia. Qed.

Lemma clip8_range (v : Z) : 0 <= clip8 v <= 255.
Proof. unfold clip8. lia. Qed.

Lemma color_ok_spec (r g b : Z) :
  color_ok (r, g, b) = true -> 0 <= r <= 255 /\ 0 <= g <= 255 /\ 0 <= b <= 255.
Proof. unfold color_ok, byte_ok. lia. Qed.

Lemma out_of_uint8_ok (c : color) : color_ok c = true -> out_of_uint8 c = None.
Proof.
  destruct c as [[r g] b]. unfold color_ok, out_of_uint8. intros H.
  apply andb_true_iff in H. destruct H as [H Hb].
  apply andb_true_iff in H. destruct H as [Hr Hg].
  rewrite Hr, Hg, Hb. reflexivity.
Qed.

Lemma out_of_uint8_bad (c : color) :
  color_ok c = false -> exists v, out_of_uint8 c = Some v.
Proof.
  destruct c as [[r g] b]. unfold color_ok, out_of_uint8.
  destruct (byte_ok r); [| intros _; eexists; reflexivity].
  destruct (byte_ok g); [| intros _; eexists; reflexivity].
  destruct (byte_ok b); [discriminate | intros _; eexists; reflexivity].
Qed.

(* ================================================================== *)
(** * The normaliser on RGBA input *)
(* ================================================================== *)

Lemma suppress_nil (thr rep : color) : suppress thr rep [] = [].
Proof. reflexivity. Qed.

Lemma to_rgba_rgba (img : Image) (p : pixel) : mode img = RGBA -> to_rgba img p = p.
Proof. intros H. unfold to_rgba. rewrite H. reflexivity. Qed.

Lemma remove_grey_rgba (image : Image) (thr rep : color) :
  mode image = RGBA -> color_ok rep = true ->
  remove_grey_background image thr rep
  = Ok (mk_image RGBA (width image) (height image)
          (map (map (suppress thr rep)) (rows image)) [] None).
Proof.
  intros H Hc. unfold remove_grey_background. rewrite H.
  cbn [bands]. rewrite (out_of_uint8_ok _ Hc). reflexivity.
Qed.

(** On an RGBA image the normaliser suppresses grey and flattens, pixel by
    pixel. *)
Lemma ensure_rgba (image : Image) (background_color : color) :
  mode image = RGBA -> 0 <= width image -> 0 <= height image ->
  ensure_pure_white_background image background_color
  = Ok (mk_image RGB (width image) (height image)
          (tabulate (width image) (height image)
             (fun x y => flatten_pixel background_color
                           (suppress default_grey_threshold white (px image x y))))
          [] None).
Proof.
  intros Hm Hw Hh. unfold ensure_pure_white_background.
  rewrite remove_grey_rgba by (exact Hm || reflexivity). cbn [bind mode has_alpha orb].
  set (image' := mk_image RGBA (width image) (height image)
                   (map (map (suppress default_grey_threshold white)) (rows image))
                   [] None).
  unfold image_new, size. cbn [width height image'].
  assert (E : (width image <? 0) || (height image <? 0) = false) by lia.
  rewrite E.
  destruct background_color as [[r g] b].
  cbn [color_bands app ink length bands Nat.eqb bind map].
  unfold convert_RGB, composite. cbn [mode width height rows].
  rewrite map_tabulate. do 2 f_equal.
  apply tabulate_ext. intros x y Hx Hy.
  rewrite px_tabulate by assumption.
  assert (Epx' : px image' x y
                 = suppress default_grey_threshold white (px image x y)).
  { unfold image'.
    apply (px_map (suppress default_grey_threshold white) RGBA image [] None).
    reflexivity. }
  assert (Epx : px (convert_RGBA image') x y
                = suppress default_grey_threshold white (px image x y)).
  { unfold convert_RGBA. rewrite (px_map (to_rgba image') RGBA image' [] None).
    - rewrite to_rgba_rgba by reflexivity. exact Epx'.
    - reflexivity. }
  unfold convert_pixel. rewrite to_rgba_rgba by reflexivity.
  rewrite Epx'.
  rewrite Epx. unfold flatten_pixel, to_rgb. cbn [mode color_bands app map].
  generalize (zip_with
                (blend8 (alpha_of (suppress default_grey_threshold white
                                            (px image x y))))
                [clip8 r; clip8 g; clip8 b; clip8 255]
                (suppress default_grey_threshold white (px image x y))).
  intros q. destruct q as [| ? [| ? [| ? [| ? [| ? ?]]]]]; reflexivity.
Qed.

(* ================================================================== *)
(** * Grey suppression *)
(* ================================================================== *)

(** C3. In the grey suppression step every pixel is treated on its own: a
    pixel (r, g, b, a) with r >= threshold.R, g >= threshold.G and
    b >= threshold.B gets the replacement colour in its red, green and blue
    channels and keeps its alpha; any other pixel is left as it is.  Mode and
    size are kept. *)
Theorem grey_suppression_per_pixel
        (image : Image) (tr tg tb cr cg cb : Z) :
  wf_image image = true -> mode image = RGBA -> color_ok (cr, cg, cb) = true ->
  exists out,
    remove_grey_background image (tr, tg, tb) (cr, cg, cb) = Ok out
    /\ mode out = RGBA /\ size out = size image
    /\ forall x y, in_image image x y = true ->
         exists r g b a,
           px image x y = [r; g; b; a]
           /\ px out x y = if (tr <=? r) && (tg <=? g) && (tb <=? b)
                           then [cr; cg; cb; a]
                           else [r; g; b; a].
Proof.
  intros Hwf Hm Hc.
  rewrite remove_grey_rgba by assumption.
  eexists. split; [reflexivity |]. split; [reflexivity |]. split; [reflexivity |].
  intros x y Hin.
  destruct (rgba_pixel image x y Hwf Hm Hin) as (r & g & b & a & E & _).
  exists r, g, b, a. split; [exact E |].
  rewrite (px_map (suppress (tr, tg, tb) (cr, cg, cb)) RGBA image [] None)
    by reflexivity.
  rewrite E. unfold suppress, is_grey.
  destruct ((tr <=? r) && (tg <=? g) && (tb <=? b)); reflexivity.
Qed.

Lemma grey_suppression_per_pixel_witness :
  exists out,
    remove_grey_background sample_rgba (200, 200, 200) (255, 255, 255) = Ok out
    /\ mode out = RGBA /\ size out = size sample_rgba
    /\ forall x y, in_image sample_rgba x y = true ->
         exists r g b a,
           px sample_rgba x y = [r; g; b; a]
           /\ px out x y = if (200 <=? r) && (200 <=? g) && (200 <=? b)
                           then [255; 255; 255; a]
                           else [r; g; b; a].
Proof.
  apply (grey_suppression_per_pixel sample_rgba 200 200 200 255 255 255);
    reflexivity.
Defined.

(* ================================================================== *)
(** * The normaliser *)
(* ================================================================== *)

Lemma flatten_transparent (bg : color) (r g b : Z) :
  color_ok bg = true -> flatten_pixel bg [r; g; b; 0] = color_bands bg.
Proof.
  destruct bg as [[cr cg] cb]. intros Hc.
  destruct (color_ok_spec cr cg cb Hc) as (Hr & Hg & Hb).
  unfold flatten_pixel, alpha_of.
  cbn [last color_bands app map zip_with].
  rewrite !blend8_transparent by apply clip8_range.
  rewrite !clip8_id by assumption. reflexivity.
Qed.

Lemma flatten_opaque (bg : color) (r g b : Z) :
  0 <= r <= 255 -> 0 <= g <= 255 -> 0 <= b <= 255 ->
  flatten_pixel bg [r; g; b; 255] = [r; g; b].
Proof.
  destruct bg as [[cr cg] cb]. intros Hr Hg Hb.
  unfold flatten_pixel, alpha_of.
  cbn [last color_bands app map zip_with].
  rewrite !blend8_opaque by assumption. reflexivity.
Qed.

Lemma flatten_white_on_white (a : Z) :
  flatten_pixel white [255; 255; 255; a] = [255; 255; 255].
Proof.
  unfold flatten_pixel, alpha_of, white.
  cbn [last color_bands app map zip_with].
  change (clip8 255) with 255.
  rewrite !(blend8_same a 255) by lia. reflexivity.
Qed.

Lemma suppress_alpha (thr rep : color) (r g b a : Z) :
  exists r' g' b', suppress thr rep [r; g; b; a] = [r'; g'; b'; a].
Proof.
  unfold suppress. destruct rep as [[cr cg] cb].
  destruct (is_grey thr r g b); eauto.
Qed.

(** C7. An RGBA image that is fully transparent (alpha 0 at every pixel)
    is normalised to the uniform image of the background colour, in mode
    RGB and of the same size. *)
Theorem transparent_input_becomes_background
        (image : Image) (background_color : color) :
  wf_image image = true -> mode image = RGBA ->
  color_ok background_color = true ->
  (forall x y, in_image image x y = true -> alpha_of (px image x y) = 0) ->
  ensure_pure_white_background image background_color
  = Ok (uniform_image RGB (width image) (height image)
                      (color_bands background_color)).
Proof.
  intros Hwf Hm Hc Halpha.
  destruct (wf_image_spec image Hwf) as (Hw & Hh & _).
  rewrite ensure_rgba by assumption.
  unfold uniform_image. do 2 f_equal.
  apply tabulate_ext. intros x y Hx Hy.
  assert (Hin : in_image image x y = true) by (apply in_image_iff; lia).
  destruct (rgba_pixel image x y Hwf Hm Hin) as (r & g & b & a & E & _).
  specialize (Halpha x y Hin). rewrite E in Halpha. cbn in Halpha. subst a.
  rewrite E.
  destruct (suppress_alpha default_grey_threshold white r g b 0)
    as (r' & g' & b' & ->).
  apply flatten_transparent. exact Hc.
Qed.

Lemma transparent_input_becomes_background_witness :
  ensure_pure_white_background sample_transparent (12, 34, 56)
  = Ok (uniform_image RGB 2 2 [12; 34; 56]).
Proof.
  apply (transparent_input_becomes_background sample_transparent (12, 34, 56));
    try reflexivity.
  intros x y Hin. apply in_image_iff in Hin. cbn in Hin.
  assert (Hx : x = 0 \/ x = 1) by lia.
  assert (Hy : y = 0 \/ y = 1) by lia.
  destruct Hx as [-> | ->], Hy as [-> | ->]; reflexivity.
Defined.

(** C6, as the code has it.  When every pixel of an RGBA image passes the
    grey test of the default threshold (200, 200, 200), the normaliser
    returns the uniform white image in mode RGB, provided every pixel is
    fully opaque or the background colour is white as well.  (A pixel that
    is not opaque is blended with the background colour instead.) *)
Theorem grey_input_becomes_white
        (image : Image) (background_color : color) :
  wf_image image = true -> mode image = RGBA ->
  (forall x y, in_image image x y = true ->
     exists r g b a, px image x y = [r; g; b; a]
                     /\ 200 <= r /\ 200 <= g /\ 200 <= b) ->
  (forall x y, in_image image x y = true -> alpha_of (px image x y) = 255)
  \/ background_color = white ->
  ensure_pure_white_background image background_color
  = Ok (uniform_image RGB (width image) (height image) (color_bands white)).
Proof.
  intros Hwf Hm Hgrey Hcase.
  destruct (wf_image_spec image Hwf) as (Hw & Hh & _).
  rewrite ensure_rgba by assumption.
  unfold uniform_image. do 2 f_equal.
  apply tabulate_ext. intros x y Hx Hy.
  assert (Hin : in_image image x y = true) by (apply in_image_iff; lia).
  destruct (Hgrey x y Hin) as (r & g & b & a & E & Hr & Hg & Hb).
  rewrite E.
  assert (Es : suppress default_grey_threshold white [r; g; b; a]
               = [255; 255; 255; a]).
  { unfold suppress, is_grey, default_grey_threshold, white.
    replace ((200 <=? r) && (200 <=? g) && (200 <=? b)) with true by lia.
    reflexivity. }
  rewrite Es.
  destruct Hcase as [Hop | ->].
  - specialize (Hop x y Hin). rewrite E in Hop. cbn in Hop. subst a.
    apply flatten_opaque; lia.
  - apply flatten_white_on_white.
Qed.

Lemma grey_input_becomes_white_witness :
  ensure_pure_white_background sample_grey_opaque black
  = Ok (uniform_image RGB 2 1 [255; 255; 255]).
Proof.
  apply (grey_input_becomes_white sample_grey_opaque black);
    try reflexivity.
  - intros x y Hin. apply in_image_iff in Hin. cbn in Hin.
    assert (Hy : y = 0) by lia.
    assert (Hx : x = 0 \/ x = 1) by lia.
    subst y. destruct Hx as [-> | ->].
    + exists 200, 220, 230, 255. cbn. repeat split; lia.
    + exists 255, 255, 255, 255. cbn. repeat split; lia.
  - left. intros x y Hin. apply in_image_iff in Hin. cbn in Hin.
    assert (Hy : y = 0) by lia.
    assert (Hx : x = 0 \/ x = 1) by lia.
    subst y. destruct Hx as [-> | ->]; reflexivity.
Defined.

(** C6 as stated fails: a white, fully transparent pixel passes the grey
    test, yet on a black background the normaliser returns black. *)
Lemma grey_transparent_on_black_counterexample :
  wf_image sample_grey_transparent = true
  /\ mode sample_grey_transparent = RGBA
  /\ (forall x y, in_image sample_grey_transparent x y = true ->
        exists r g b a, px sample_grey_transparent x y = [r; g; b; a]
                        /\ 200 <= r /\ 200 <= g /\ 200 <= b)
  /\ ensure_pure_white_background sample_grey_transparent black
     = Ok (uniform_image RGB 1 1 [0; 0; 0])
  /\ ensure_pure_white_background sample_grey_transparent black
     <> Ok (uniform_image RGB 1 1 (color_bands white)).
Proof.
  split; [reflexivity |]. split; [reflexivity |]. split.
  - intros x y Hin. apply in_image_iff in Hin. cbn in Hin.
    assert (x = 0) by lia. assert (y = 0) by lia. subst.
    exists 255, 255, 255, 0. cbn. repeat split; lia.
  - split; [reflexivity | discriminate].
Qed.

Lemma process_image_returns (W : World) (input_path output_path : string)
      (max_size : Z) (final_size : Z * Z) (background_color : color) :
  fst (process_image W input_path output_path max_size final_size
                     background_color) = Ok tt.
Proof.
  unfold process_image, try_except, seq_proc, lift, print.
  destruct (pipeline W input_path output_path max_size final_size
                     background_color) as [[img out] | e]; reflexivity.
Qed.

Lemma process_image_prints (W : World) (input_path output_path : string)
      (max_size : Z) (final_size : Z * Z) (background_color : color) :
  snd (process_image W input_path output_path max_size final_size
                     background_color)
  = match pipeline W input_path output_path max_size final_size
                   background_color with
    | Ok written => ["Processed and saved: " ++ snd written]%string
    | Raise e => ["Error processing " ++ input_path ++ ": " ++ exn_msg e]%string
    end.
Proof.
  unfold process_image, try_except, seq_proc, lift, print.
  destruct (pipeline W input_path output_path max_size final_size
                     background_color) as [[img out] | e]; reflexivity.
Qed.






(* ================================================================== *)
(** * Centring on the canvas *)
(* ================================================================== *)

Lemma bind_ok {A B : Type} (c : result A) (k : A -> result B) (b : B) :
  bind c k = Ok b -> exists a, c = Ok a /\ k a = Ok b.
Proof.
  destruct c as [a | e]; cbn; [| discriminate].
  intros H. exists a. split; [reflexivity | exact H].
Qed.

Lemma center_on_canvas_size (resized_img : Image) (final_size : Z * Z)
      (background_color : color) (final : Image) :
  center_on_canvas resized_img final_size background_color = Ok final ->
  size final = final_size /\ mode final = RGB.
Proof.
  unfold center_on_canvas. intros H.
  apply bind_ok in H. destruct H as (canvas & Hnew & Hpaste).
  unfold image_new in Hnew. destruct final_size as [cw ch].
  destruct ((cw <? 0) || (ch <? 0)); [discriminate |].
  apply bind_ok in Hnew. destruct Hnew as (p & _ & Hc).
  injection Hc as <-. injection Hpaste as <-.
  split; reflexivity.
Qed.

(** C1. For any subject the composed image has exactly the configured
    canvas size; the subject is pasted at the offsets
    (canvas - subject) // 2 per axis, floor division, which are negative
    exactly when the subject is larger than the canvas; the canvas then shows
    only the part of the subject that falls inside it.  Every image the
    pipeline produces is composed this way and has the canvas size. *)
Theorem canvas_has_configured_size
        (subject : Image) (cw ch : Z) (background_color : color) :
  0 <= cw -> 0 <= ch ->
  let x_offset := (cw - width subject) / 2 in
  let y_offset := (ch - height subject) / 2 in
  (exists final,
     center_on_canvas subject (cw, ch) background_color = Ok final
     /\ mode final = RGB /\ size final = (cw, ch)
     /\ 2 * x_offset <= cw - width subject < 2 * x_offset + 2
     /\ 2 * y_offset <= ch - height subject < 2 * y_offset + 2
     /\ (x_offset < 0 <-> cw < width subject)
     /\ (y_offset < 0 <-> ch < height subject)
     /\ forall x y, 0 <= x < cw -> 0 <= y < ch ->
          px final x y
          = if in_image subject (x - x_offset) (y - y_offset)
            then to_rgb subject (px subject (x - x_offset) (y - y_offset))
            else map clip8 (color_bands background_color))
  /\ (forall W input_path max_size final,
        render W input_path max_size (cw, ch) background_color = Ok final ->
        size final = (cw, ch) /\ mode final = RGB).
Proof.
  intros Hw Hh x_offset y_offset. split.
  - unfold center_on_canvas, image_new.
    assert (E : (cw <? 0) || (ch <? 0) = false) by lia.
    rewrite E. destruct background_color as [[r g] b].
    cbn [color_bands ink length bands Nat.eqb bind fst snd size].
    eexists. split; [reflexivity |].
    split; [reflexivity |]. split; [reflexivity |].
    fold x_offset y_offset.
    assert (Dx := Z.div_mod (cw - width subject) 2 ltac:(lia)).
    assert (Mx := Z.mod_pos_bound (cw - width subject) 2 ltac:(lia)).
    assert (Dy := Z.div_mod (ch - height subject) 2 ltac:(lia)).
    assert (My := Z.mod_pos_bound (ch - height subject) 2 ltac:(lia)).
    fold x_offset in Dx. fold y_offset in Dy.
    repeat (split; [lia |]).
    intros x y Hx Hy. unfold paste. cbn [mode width height].
    rewrite px_tabulate by assumption.
    rewrite px_tabulate by assumption. reflexivity.
  - intros W input_path max_size final H. unfold render in H.
    do 4 (apply bind_ok in H; destruct H as (? & _ & H)).
    apply center_on_canvas_size in H. exact H.
Qed.

Lemma canvas_has_configured_size_witness :
  exists final,
    center_on_canvas sample_framed (1000, 1000) white = Ok final
    /\ mode final = RGB /\ size final = (1000, 1000)
    /\ 2 * 498 <= 1000 - 4 < 2 * 498 + 2
    /\ 2 * 498 <= 1000 - 4 < 2 * 498 + 2
    /\ (498 < 0 <-> 1000 < 4)
    /\ (498 < 0 <-> 1000 < 4)
    /\ forall x y, 0 <= x < 1000 -> 0 <= y < 1000 ->
         px final x y
         = if in_image sample_framed (x - 498) (y - 498)
           then to_rgb sample_framed (px sample_framed (x - 498) (y - 498))
           else [255; 255; 255].
Proof.
  apply (canvas_has_configured_size sample_framed 1000 1000 white); lia.
Defined.

(* ================================================================== *)
(** * The driver *)
(* ================================================================== *)





(* ================================================================== *)
(** * Bounding boxes *)
(* ================================================================== *)

Lemma find_first_spec (p : Z -> bool) (n : nat) : forall start,
  match find_first p start n with
  | Some i => start <= i < start + Z.of_nat n /\ p i = true
              /\ forall j, start <= j < i -> p j = false
  | None => forall j, start <= j < start + Z.of_nat n -> p j = false
  end.
Proof.
  induction n as [| n IH]; intros start.
  - cbn. intros j Hj. lia.
  - cbn [find_first]. destruct (p start) eqn:E.
    + split; [lia |]. split; [exact E |]. intros j Hj. lia.
    + specialize (IH (start + 1)).
      destruct (find_first p (start + 1) n) as [i |].
      * destruct IH as (Hi & Hp & Hmin). split; [lia |]. split; [exact Hp |].
        intros j Hj. destruct (Z.eq_dec j start) as [-> | Hne]; [exact E |].
        apply Hmin. lia.
      * intros j Hj. destruct (Z.eq_dec j start) as [-> | Hne]; [exact E |].
        apply IH. lia.
Qed.

Lemma find_last_spec (p : Z -> bool) (start : Z) (n : nat) :
  match find_last p start n with
  | Some i => start <= i < start + Z.of_nat n /\ p i = true
              /\ forall j, i < j < start + Z.of_nat n -> p j = false
  | None => forall j, start <= j < start + Z.of_nat n -> p j = false
  end.
Proof.
  induction n as [| n IH].
  - cbn. intros j Hj. lia.
  - cbn [find_last]. destruct (p (start + Z.of_nat n)) eqn:E.
    + split; [lia |]. split; [exact E |]. intros j Hj. lia.
    + destruct (find_last p start n) as [i |].
      * destruct IH as (Hi & Hp & Hmax). split; [lia |]. split; [exact Hp |].
        intros j Hj.
        destruct (Z.eq_dec j (start + Z.of_nat n)) as [-> | Hne]; [exact E |].
        apply Hmax. lia.
      * intros j Hj.
        destruct (Z.eq_dec j (start + Z.of_nat n)) as [-> | Hne]; [exact E |].
        apply IH. lia.
Qed.

Lemma row_has_data_iff (img : Image) (y : Z) :
  row_has_data img y = true
  <-> exists x, 0 <= x < width img /\ nonzero (mode img) (px img x y) = true.
Proof.
  unfold row_has_data. rewrite existsb_exists. split.
  - intros (x & Hx & Hnz). exists x. apply in_zrange in Hx. tauto.
  - intros (x & Hx & Hnz). exists x. rewrite in_zrange. tauto.
Qed.

Lemma col_has_data_iff (img : Image) (x : Z) :
  col_has_data img x = true
  <-> exists y, 0 <= y < height img /\ nonzero (mode img) (px img x y) = true.
Proof.
  unfold col_has_data. rewrite existsb_exists. split.
  - intros (y & Hy & Hnz). exists y. apply in_zrange in Hy. tauto.
  - intros (y & Hy & Hnz). exists y. rewrite in_zrange. tauto.
Qed.

Lemma counted_row (img : Image) (x y : Z) :
  counted img x y -> row_has_data img y = true.
Proof.
  intros [Hin Hnz]. apply in_image_iff in Hin.
  apply row_has_data_iff. exists x. tauto.
Qed.

Lemma counted_col (img : Image) (x y : Z) :
  counted img x y -> col_has_data img x = true.
Proof.
  intros [Hin Hnz]. apply in_image_iff in Hin.
  apply col_has_data_iff. exists y. tauto.
Qed.

Ltac no_data H :=
  let x := fresh "x" in let y := fresh "y" in let C := fresh "C" in
  intros x y C;
  first [ pose proof (counted_row _ _ _ C) as R; rewrite H in R;
          [discriminate | destruct C as [C _]; apply in_image_iff in C; lia]
        | pose proof (counted_col _ _ _ C) as R; rewrite H in R;
          [discriminate | destruct C as [C _]; apply in_image_iff in C; lia] ].

(** [getbbox] returns the smallest rectangle around the counted pixels, and
    [None] exactly when no pixel counts. *)
Lemma getbbox_spec (img : Image) :
  0 <= width img -> 0 <= height img ->
  match getbbox img with
  | Some (x0, y0, x1, y1) =>
      (forall x y, counted img x y -> x0 <= x < x1 /\ y0 <= y < y1)
      /\ (exists y, counted img x0 y)
      /\ (exists y, counted img (x1 - 1) y)
      /\ (exists x, counted img x y0)
      /\ (exists x, counted img x (y1 - 1))
  | None => forall x y, ~ counted img x y
  end.
Proof.
  intros Hw Hh. unfold getbbox.
  pose proof (find_first_spec (row_has_data img) (Z.to_nat (height img)) 0) as R1.
  pose proof (find_last_spec (row_has_data img) 0 (Z.to_nat (height img))) as R2.
  pose proof (find_first_spec (col_has_data img) (Z.to_nat (width img)) 0) as C1.
  pose proof (find_last_spec (col_has_data img) 0 (Z.to_nat (width img))) as C2.
  rewrite Z2Nat.id in R1, R2, C1, C2 by assumption.
  destruct (find_first (row_has_data img) 0 (Z.to_nat (height img))) as [y0 |];
    [| no_data R1].
  destruct (find_last (row_has_data img) 0 (Z.to_nat (height img))) as [y1 |];
    [| no_data R2].
  destruct (find_first (col_has_data img) 0 (Z.to_nat (width img))) as [x0 |];
    [| no_data C1].
  destruct (find_last (col_has_data img) 0 (Z.to_nat (width img))) as [x1 |];
    [| no_data C2].
  destruct R1 as (Ry0 & Py0 & My0), R2 as (Ry1 & Py1 & My1).
  destruct C1 as (Rx0 & Px0 & Mx0), C2 as (Rx1 & Px1 & Mx1).
  replace (x1 + 1 - 1) with x1 by lia. replace (y1 + 1 - 1) with y1 by lia.
  split; [| split; [| split; [| split]]].
  - intros x y C.
    pose proof (counted_row _ _ _ C) as Hr.
    pose proof (counted_col _ _ _ C) as Hc.
    destruct C as [Hin _]. apply in_image_iff in Hin.
    assert (~ x < x0) by (intros Hlt; rewrite Mx0 in Hc by lia; discriminate).
    assert (~ x1 < x) by (intros Hlt; rewrite Mx1 in Hc by lia; discriminate).
    assert (~ y < y0) by (intros Hlt; rewrite My0 in Hr by lia; discriminate).
    assert (~ y1 < y) by (intros Hlt; rewrite My1 in Hr by lia; discriminate).
    lia.
  - apply col_has_data_iff in Px0. destruct Px0 as (y & Hy & Hnz).
    exists y. split; [apply in_image_iff; lia | exact Hnz].
  - apply col_has_data_iff in Px1. destruct Px1 as (y & Hy & Hnz).
    exists y. split; [apply in_image_iff; lia | exact Hnz].
  - apply row_has_data_iff in Py0. destruct Py0 as (x & Hx & Hnz).
    exists x. split; [apply in_image_iff; lia | exact Hnz].
  - apply row_has_data_iff in Py1. destruct Py1 as (x & Hx & Hnz).
    exists x. split; [apply in_image_iff; lia | exact Hnz].
Qed.

(* ================================================================== *)
(** * The trimmer *)
(* ================================================================== *)

Lemma absdiff_nonzero (p : pixel) : forall c : pixel,
  length p = length c ->
  (existsb (fun v => negb (v =? 0)) (zip_with (fun a b => Z.abs (a - b)) p c) = true
   <-> p <> c).
Proof.
  induction p as [| a p IH]; intros [| b c] Hlen; cbn in Hlen; try discriminate.
  - cbn. split; [discriminate | congruence].
  - cbn [zip_with existsb]. rewrite orb_true_iff.
    injection Hlen as Hlen. specialize (IH c Hlen). rewrite IH. split.
    + intros [H | H] E; injection E as E1 E2.
      * subst b. rewrite Z.sub_diag in H. discriminate.
      * contradiction.
    + intros Hne. destruct (Z.eq_dec a b) as [-> | Hab].
      * right. congruence.
      * left. apply negb_true_iff, Z.eqb_neq. lia.
Qed.

Lemma map_clip8_id (p : pixel) :
  (forall v, In v p -> 0 <= v <= 255) -> map clip8 p = p.
Proof.
  induction p as [| a p IH]; intros H; [reflexivity |].
  cbn [map]. rewrite clip8_id by (apply H; left; reflexivity).
  rewrite IH by (intros v Hv; apply H; right; exact Hv). reflexivity.
Qed.

Lemma nonempty_iff (img : Image) :
  nonempty img = true <-> 0 < width img /\ 0 < height img.
Proof. unfold nonempty. lia. Qed.

(** With no colour supplied the trimmer samples the top-left pixel and
    compares the image with the uniform image of that colour. *)
Lemma trim_border_unfold (image : Image) :
  wf_image image = true -> nonempty image = true ->
  trim_border image None
  = match getbbox (difference image
                     (uniform_image (mode image) (width image) (height image)
                                    (px image 0 0))) with
    | Some bbox => crop image bbox
    | None => Ok image
    end.
Proof.
  intros Hwf Hne. apply nonempty_iff in Hne.
  assert (Hin : in_image image 0 0 = true) by (apply in_image_iff; lia).
  unfold trim_border, getpixel. cbn [Z.ltb Z.compare]. rewrite Hin. cbn [bind].
  unfold image_new, size.
  assert (E : (width image <? 0) || (height image <? 0) = false) by lia.
  rewrite E.
  destruct (pixel_ok_spec _ _ (wf_pixel image 0 0 Hwf Hin)) as [Hl Hb].
  unfold ink. rewrite Hl, Nat.eqb_refl. cbn [bind].
  rewrite map_clip8_id by exact Hb. reflexivity.
Qed.

Lemma counted_difference (image : Image) (c : pixel) (x y : Z) :
  wf_image image = true -> has_alpha (mode image) = false ->
  length c = bands (mode image) ->
  (counted (difference image
              (uniform_image (mode image) (width image) (height image) c)) x y
   <-> differs image c x y).
Proof.
  intros Hwf Ha Hc. unfold counted, differs.
  assert (Ei : in_image (difference image
                 (uniform_image (mode image) (width image) (height image) c)) x y
               = in_image image x y) by reflexivity.
  rewrite Ei. split; intros [Hin H]; (split; [exact Hin |]).
  - pose proof Hin as Hin'. apply in_image_iff in Hin'.
    unfold difference in H. rewrite px_tabulate in H by tauto.
    unfold uniform_image in H. rewrite px_tabulate in H by tauto.
    cbn [mode] in H. unfold nonzero in H. rewrite Ha in H.
    destruct (pixel_ok_spec _ _ (wf_pixel image x y Hwf Hin)) as [Hl _].
    apply absdiff_nonzero in H; [exact H | congruence].
  - pose proof Hin as Hin'. apply in_image_iff in Hin'.
    unfold difference. rewrite px_tabulate by tauto.
    unfold uniform_image. rewrite px_tabulate by tauto.
    cbn [mode]. unfold nonzero. rewrite Ha.
    destruct (pixel_ok_spec _ _ (wf_pixel image x y Hwf Hin)) as [Hl _].
    apply absdiff_nonzero; [congruence | exact H].
Qed.

Lemma bounding_box_inside (img : Image) (c : pixel) (x0 y0 x1 y1 : Z) :
  bounding_box img c (x0, y0, x1, y1) ->
  0 <= x0 < x1 /\ x1 <= width img /\ 0 <= y0 < y1 /\ y1 <= height img.
Proof.
  intros (Hall & (ya & Da) & (yb & Db) & (xc & Dc) & (xd & Dd)).
  pose proof (Hall _ _ Da). pose proof (Hall _ _ Dc).
  destruct Da as [Ia _], Db as [Ib _], Dc as [Ic _], Dd as [Id _].
  apply in_image_iff in Ia, Ib, Ic, Id. lia.
Qed.

Lemma crop_inside (image : Image) (x0 y0 x1 y1 : Z) :
  0 <= x0 <= x1 -> x1 <= width image -> 0 <= y0 <= y1 -> y1 <= height image ->
  crop image (x0, y0, x1, y1)
  = Ok (mk_image (mode image) (x1 - x0) (y1 - y0)
          (tabulate (x1 - x0) (y1 - y0) (fun x y => px image (x + x0) (y + y0)))
          (palette image) (transparency image)).
Proof.
  intros Hx0 Hx1 Hy0 Hy1. unfold crop.
  assert (E1 : (x1 <? x0) = false) by lia.
  assert (E2 : (y1 <? y0) = false) by lia.
  rewrite E1, E2. do 2 f_equal.
  apply tabulate_ext. intros x y Hx Hy.
  assert (E : in_image image (x + x0) (y + y0) = true)
    by (apply in_image_iff; lia).
  rewrite E. reflexivity.
Qed.

(** The two outcomes of trimming: nothing differs from the corner colour
    and the image comes back as it is, or the image is cropped to the
    smallest rectangle around the pixels that differ. *)
Lemma trim_border_cases (image : Image) :
  wf_image image = true -> nonempty image = true ->
  has_alpha (mode image) = false ->
  ((forall x y, ~ differs image (px image 0 0) x y)
   /\ trim_border image None = Ok image)
  \/ (exists x0 y0 x1 y1,
        bounding_box image (px image 0 0) (x0, y0, x1, y1)
        /\ trim_border image None = crop image (x0, y0, x1, y1)).
Proof.
  intros Hwf Hne Ha.
  rewrite trim_border_unfold by assumption.
  destruct (wf_image_spec image Hwf) as (Hw & Hh & _).
  assert (Hin : in_image image 0 0 = true).
  { apply nonempty_iff in Hne. apply in_image_iff. lia. }
  destruct (pixel_ok_spec _ _ (wf_pixel image 0 0 Hwf Hin)) as [Hl _].
  set (c := px image 0 0) in *.
  set (d := difference image
              (uniform_image (mode image) (width image) (height image) c)).
  pose proof (getbbox_spec d Hw Hh) as Hbox.
  assert (Hcd : forall x y, counted d x y <-> differs image c x y).
  { intros x y. apply counted_difference; assumption. }
  destruct (getbbox d) as [[[[x0 y0] x1] y1] |].
  - right. exists x0, y0, x1, y1. split; [| reflexivity].
    destruct Hbox as (Hall & (ya & Da) & (yb & Db) & (xc & Dc) & (xd & Dd)).
    unfold bounding_box. split; [| split; [| split; [| split]]].
    + intros x y D. apply Hall, Hcd, D.
    + exists ya. apply Hcd, Da.
    + exists yb. apply Hcd, Db.
    + exists xc. apply Hcd, Dc.
    + exists xd. apply Hcd, Dd.
  - left. split; [| reflexivity].
    intros x y D. apply (Hbox x y), Hcd, D.
Qed.

(** In a mode with an alpha band the bounding box looks at the alpha band
    of the difference only. *)
Lemma last_absdiff (p : pixel) : forall c : pixel,
  length p = length c -> (0 < length p)%nat ->
  last (zip_with (fun a b => Z.abs (a - b)) p c) 0
  = Z.abs (alpha_of p - alpha_of c).
Proof.
  unfold alpha_of.
  induction p as [| a p IH]; intros [| b c] Hlen Hpos; cbn in Hlen, Hpos;
    try discriminate; try lia.
  injection Hlen as Hlen.
  destruct p as [| a' p]; destruct c as [| b' c]; try discriminate.
  - reflexivity.
  - cbn [zip_with]. cbn [zip_with] in IH.
    change (last (a :: a' :: p) 255) with (last (a' :: p) 255).
    change (last (b :: b' :: c) 255) with (last (b' :: c) 255).
    rewrite <- (IH (b' :: c) Hlen) by (cbn; lia).
    reflexivity.
Qed.

Lemma counted_difference_alpha (image : Image) (c : pixel) (x y : Z) :
  wf_image image = true -> has_alpha (mode image) = true ->
  length c = bands (mode image) ->
  (counted (difference image
              (uniform_image (mode image) (width image) (height image) c)) x y
   <-> alpha_differs image c x y).
Proof.
  intros Hwf Ha Hc. unfold counted, alpha_differs.
  set (d := difference image
              (uniform_image (mode image) (width image) (height image) c)).
  assert (Ei : in_image d x y = in_image image x y) by reflexivity.
  rewrite Ei.
  assert (Hcount : in_image image x y = true ->
            nonzero (mode d) (px d x y)
            = negb (Z.abs (alpha_of (px image x y) - alpha_of c) =? 0)).
  { intros Hin. pose proof Hin as Hin'. apply in_image_iff in Hin'.
    unfold d, difference. rewrite px_tabulate by tauto.
    unfold uniform_image. rewrite px_tabulate by tauto.
    cbn [mode]. unfold nonzero. rewrite Ha.
    destruct (pixel_ok_spec _ _ (wf_pixel image x y Hwf Hin)) as [Hl _].
    rewrite last_absdiff; [reflexivity | congruence |].
    rewrite Hl. destruct (mode image); cbn in Ha |- *; (discriminate || lia). }
  split; intros [Hin H]; (split; [exact Hin |]).
  - rewrite (Hcount Hin) in H. apply negb_true_iff, Z.eqb_neq in H. lia.
  - rewrite (Hcount Hin). apply negb_true_iff, Z.eqb_neq. lia.
Qed.

Lemma alpha_bounding_box_inside (img : Image) (c : pixel) (x0 y0 x1 y1 : Z) :
  alpha_bounding_box img c (x0, y0, x1, y1) ->
  0 <= x0 < x1 /\ x1 <= width img /\ 0 <= y0 < y1 /\ y1 <= height img.
Proof.
  intros (Hall & (ya & Da) & (yb & Db) & (xc & Dc) & (xd & Dd)).
  pose proof (Hall _ _ Da). pose proof (Hall _ _ Dc).
  destruct Da as [Ia _], Db as [Ib _], Dc as [Ic _], Dd as [Id _].
  apply in_image_iff in Ia, Ib, Ic, Id. lia.
Qed.

Lemma trim_border_cases_alpha (image : Image) :
  wf_image image = true -> nonempty image = true ->
  has_alpha (mode image) = true ->
  ((forall x y, ~ alpha_differs image (px image 0 0) x y)
   /\ trim_border image None = Ok image)
  \/ (exists x0 y0 x1 y1,
        alpha_bounding_box image (px image 0 0) (x0, y0, x1, y1)
        /\ trim_border image None = crop image (x0, y0, x1, y1)).
Proof.
  intros Hwf Hne Ha.
  rewrite trim_border_unfold by assumption.
  destruct (wf_image_spec image Hwf) as (Hw & Hh & _).
  assert (Hin : in_image image 0 0 = true).
  { apply nonempty_iff in Hne. apply in_image_iff. lia. }
  destruct (pixel_ok_spec _ _ (wf_pixel image 0 0 Hwf Hin)) as [Hl _].
  set (c := px image 0 0) in *.
  set (d := difference image
              (uniform_image (mode image) (width image) (height image) c)).
  pose proof (getbbox_spec d Hw Hh) as Hbox.
  assert (Hcd : forall x y, counted d x y <-> alpha_differs image c x y).
  { intros x y. apply counted_difference_alpha; assumption. }
  destruct (getbbox d) as [[[[x0 y0] x1] y1] |].
  - right. exists x0, y0, x1, y1. split; [| reflexivity].
    destruct Hbox as (Hall & (ya & Da) & (yb & Db) & (xc & Dc) & (xd & Dd)).
    unfold alpha_bounding_box. split; [| split; [| split; [| split]]].
    + intros x y D. apply Hall, Hcd, D.
    + exists ya. apply Hcd, Da.
    + exists yb. apply Hcd, Db.
    + exists xc. apply Hcd, Dc.
    + exists xd. apply Hcd, Dd.
  - left. split; [| reflexivity].
    intros x y D. apply (Hbox x y), Hcd, D.
Qed.


Lemma wf_tabulate (m : Mode) (w h : Z) (f : Z -> Z -> pixel) pal tr :
  0 <= w -> 0 <= h ->
  (forall x y, 0 <= x < w -> 0 <= y < h -> pixel_ok m (f x y) = true) ->
  wf_image (mk_image m w h (tabulate w h f) pal tr) = true.
Proof.
  intros Hw Hh Hok. unfold wf_image. cbn [mode width height rows].
  rewrite !andb_true_iff. repeat split; try lia.
  - apply Nat.eqb_eq. unfold tabulate. rewrite length_map, zrange_length.
    reflexivity.
  - apply forallb_forall. intros row Hrow.
    unfold tabulate in Hrow. apply in_map_iff in Hrow.
    destruct Hrow as (y & <- & Hy). apply in_zrange in Hy.
    apply andb_true_iff. split.
    + apply Nat.eqb_eq. rewrite length_map, zrange_length. reflexivity.
    + apply forallb_forall. intros p Hp. apply in_map_iff in Hp.
      destruct Hp as (x & <- & Hx). apply in_zrange in Hx.
      apply Hok; assumption.
Qed.

(** C4, as the code has it.  With no colour supplied the trimmer samples
    the top-left pixel of a non-empty image.  It then crops the image to the
    smallest rectangle around the pixels that count as different from that
    colour, when there is one, and returns the image itself when none counts
    -- in particular on a uniform image.  In a mode without alpha band every
    pixel that differs from the colour counts; in a mode with an alpha band
    a pixel counts only when its alpha differs from the alpha of the
    colour. *)
Theorem trim_crops_to_bounding_box (image : Image) :
  wf_image image = true -> nonempty image = true ->
  let c := px image 0 0 in
  getpixel image (0, 0) = Ok c
  /\ trim_border image None = trim_border image (Some c)
  /\ exists out,
       trim_border image None = Ok out
       /\ ((forall x y, in_image image x y = true -> px image x y = c) ->
           out = image)
       /\ (has_alpha (mode image) = false ->
           (exists x y, differs image c x y) ->
           exists x0 y0 x1 y1,
             bounding_box image c (x0, y0, x1, y1)
             /\ crop image (x0, y0, x1, y1) = Ok out
             /\ mode out = mode image
             /\ size out = (x1 - x0, y1 - y0)
             /\ forall x y, 0 <= x < x1 - x0 -> 0 <= y < y1 - y0 ->
                  px out x y = px image (x + x0) (y + y0))
       /\ (has_alpha (mode image) = true ->
           ((forall x y, ~ alpha_differs image c x y) -> out = image)
           /\ ((exists x y, alpha_differs image c x y) ->
               exists x0 y0 x1 y1,
                 alpha_bounding_box image c (x0, y0, x1, y1)
                 /\ crop image (x0, y0, x1, y1) = Ok out
                 /\ mode out = mode image
                 /\ size out = (x1 - x0, y1 - y0)
                 /\ forall x y, 0 <= x < x1 - x0 -> 0 <= y < y1 - y0 ->
                      px out x y = px image (x + x0) (y + y0))).
Proof.
  intros Hwf Hne c.
  assert (Hin : in_image image 0 0 = true).
  { apply nonempty_iff in Hne. apply in_image_iff. lia. }
  assert (Hget : getpixel image (0, 0) = Ok c).
  { unfold getpixel. cbn [Z.ltb Z.compare]. rewrite Hin. reflexivity. }
  split; [exact Hget |]. split.
  { unfold trim_border. rewrite Hget. reflexivity. }
  destruct (has_alpha (mode image)) eqn:Ha.
  - destruct (trim_border_cases_alpha image Hwf Hne Ha)
      as [[Hnone Htrim] | (x0 & y0 & x1 & y1 & BB & Htrim)].
    + exists image. split; [exact Htrim |]. split; [reflexivity |].
      split; [discriminate |]. intros _. split; [reflexivity |].
      intros (x & y & D). exfalso. exact (Hnone x y D).
    + destruct (alpha_bounding_box_inside image c x0 y0 x1 y1 BB)
        as (Bx0 & Bx1 & By0 & By1).
      rewrite crop_inside in Htrim by lia.
      eexists. split; [exact Htrim |]. split; [| split; [discriminate |]].
      * intros Huni. exfalso.
        destruct BB as (_ & (y & [Hi Hd]) & _). apply Hd.
        rewrite (Huni _ _ Hi). reflexivity.
      * intros _. split.
        -- intros Hnone. exfalso.
           destruct BB as (_ & (y & D) & _). exact (Hnone _ _ D).
        -- intros _. exists x0, y0, x1, y1.
           split; [exact BB |]. split; [apply crop_inside; lia |].
           split; [reflexivity |]. split; [reflexivity |].
           intros x y Hx Hy. rewrite px_tabulate by assumption. reflexivity.
  - destruct (trim_border_cases image Hwf Hne Ha)
      as [[Hnone Htrim] | (x0 & y0 & x1 & y1 & BB & Htrim)].
    + exists image. split; [exact Htrim |]. split; [reflexivity |].
      split; [| discriminate].
      intros _ (x & y & D). exfalso. exact (Hnone x y D).
    + destruct (bounding_box_inside image c x0 y0 x1 y1 BB)
        as (Bx0 & Bx1 & By0 & By1).
      rewrite crop_inside in Htrim by lia.
      eexists. split; [exact Htrim |]. split; [| split; [| discriminate]].
      * intros Huni. exfalso.
        destruct BB as (_ & (y & [Hi Hd]) & _). apply Hd, Huni, Hi.
      * intros _ _. exists x0, y0, x1, y1.
        split; [exact BB |]. split; [apply crop_inside; lia |].
        split; [reflexivity |]. split; [reflexivity |].
        intros x y Hx Hy. rewrite px_tabulate by assumption. reflexivity.
Qed.

Lemma trim_crops_to_bounding_box_witness :
  getpixel sample_framed (0, 0) = Ok [255; 255; 255]
  /\ trim_border sample_framed None = trim_border sample_framed (Some [255; 255; 255])
  /\ exists out,
       trim_border sample_framed None = Ok out
       /\ ((forall x y, in_image sample_framed x y = true ->
              px sample_framed x y = [255; 255; 255]) ->
           out = sample_framed)
       /\ ((exists x y, differs sample_framed [255; 255; 255] x y) ->
           exists x0 y0 x1 y1,
             bounding_box sample_framed [255; 255; 255] (x0, y0, x1, y1)
             /\ crop sample_framed (x0, y0, x1, y1) = Ok out
             /\ mode out = RGB
             /\ size out = (x1 - x0, y1 - y0)
             /\ forall x y, 0 <= x < x1 - x0 -> 0 <= y < y1 - y0 ->
                  px out x y = px sample_framed (x + x0) (y + y0)).
Proof.
  destruct (trim_crops_to_bounding_box sample_framed eq_refl eq_refl)
    as (Hget & Hsame & out & Hout & Huni & Hplain & _).
  split; [exact Hget |]. split; [exact Hsame |].
  exists out. split; [exact Hout |]. split; [exact Huni |].
  exact (Hplain eq_refl).
Defined.

(** C4 as stated fails on two kinds of image.  In an opaque RGBA picture of
    one white and one black pixel the black pixel differs from the corner
    colour and has the bounding box (1, 0, 2, 1), yet the trimmer returns
    the whole picture: only the alpha band is looked at.  On a picture
    without pixels the top-left pixel cannot be sampled and the trimmer
    raises [IndexError]. *)
Lemma trim_keeps_opaque_two_tone_counterexample :
  wf_image sample_two_tone = true
  /\ nonempty sample_two_tone = true
  /\ differs sample_two_tone (px sample_two_tone 0 0) 1 0
  /\ bounding_box sample_two_tone (px sample_two_tone 0 0) (1, 0, 2, 1)
  /\ trim_border sample_two_tone None = Ok sample_two_tone
  /\ crop sample_two_tone (1, 0, 2, 1)
     = Ok (mk_image RGBA 1 1 [[[0; 0; 0; 255]]] [] None)
  /\ trim_border sample_two_tone None <> crop sample_two_tone (1, 0, 2, 1)
  /\ wf_image sample_empty = true
  /\ trim_border sample_empty None
     = Raise (mk_exn IndexError "image index out of range").
Proof.
  assert (D : differs sample_two_tone (px sample_two_tone 0 0) 1 0).
  { split; [reflexivity | discriminate]. }
  split; [reflexivity |]. split; [reflexivity |]. split; [exact D |].
  split; [| repeat split; (reflexivity || discriminate)].
  unfold bounding_box.
  split; [| split; [| split; [| split]]]; try (exists 0; exact D);
    try (exists 1; exact D).
  intros x y [Hin Hd]. apply in_image_iff in Hin. cbn in Hin.
  assert (Hy : y = 0) by lia. subst y.
  assert (Hx : x = 0 \/ x = 1) by lia.
  destruct Hx as [-> | ->]; [| lia].
  exfalso. apply Hd. reflexivity.
Qed.





(* ================================================================== *)
(** * The resizer *)
(* ================================================================== *)

(** C2, evaluated.  The resizer computes the free dimension in binary64
    and truncates.  For 800 x 600 and for a square this is the exact
    proportional size rounded down.  For a 9 x 7 picture and max_size 9 the
    proportional height is exactly 7, but [9 / 7] rounds to
    5790342378047781 / 2^52 and [9 / (9 / 7)] to 7881299347898367 / 2^50,
    just below 7, so the resizer asks for 9 x 6; likewise 25 x 3 at max_size
    500 gives 500 x 59 where the proportional height is exactly 60.
    ([ResizeBounds.resize_size_within_one] bounds the loss to one pixel.) *)
Theorem resize_truncates_the_rounded_quotient :
  resize_size (800, 600) 500 = Ok (500, 375)
  /\ resize_size (1000, 1000) 500 = Ok (500, 500)
  /\ (exists aspect_ratio q,
        PyFloat.int_truediv 9 7 = Ok aspect_ratio
        /\ Qeq aspect_ratio (5790342378047781 # 4503599627370496)
        /\ PyFloat.int_div_float 9 aspect_ratio = Ok q
        /\ Qeq q (7881299347898367 # 1125899906842624)
        /\ Qlt q (inject_Z 7)
        /\ PyFloat.to_int q = 6)
  /\ resize_size (9, 7) 9 = Ok (9, 6) /\ 9 * 7 / 9 = 7
  /\ resize_size (25, 3) 500 = Ok (500, 59) /\ 500 * 3 / 25 = 60.
Proof.
  split; [vm_compute; reflexivity |]. split; [vm_compute; reflexivity |].
  split.
  - eexists. eexists.
    split; [vm_compute; reflexivity |]. split; [vm_compute; reflexivity |].
    split; [vm_compute; reflexivity |]. split; [vm_compute; reflexivity |].
    split; vm_compute; reflexivity.
  - repeat split; vm_compute; reflexivity.
Qed.

Lemma sample_world_rejects_empty : resampler_rejects_empty sample_world.
Proof.
  intros img [w h] Hne Hside. cbn [image_resize sample_world fst snd] in *.
  destruct ((w =? width img) && (h =? height img)) eqn:E.
  - exfalso. apply Hne. apply andb_true_iff in E. destruct E as [Ew Eh].
    apply Z.eqb_eq in Ew, Eh. subst. reflexivity.
  - assert (Es : (w <? 1) || (h <? 1) = true) by lia.
    rewrite Es. reflexivity.
Qed.

(** C10, as the code has it.  When the height is at least the width and
    width * max_size < height, the width the resizer computes is 0: the size
    it hands to the resampler is (0, max_size).  (Sizes are below 2^31, as
    the imaging library keeps them, and max_size is a pixel count, not
    negative.)  The imaging library refuses a size with a side below 1, so
    the resizer then returns no image: it raises [ValueError].  A 1 x 1001
    picture with max_size 500 is such a case. *)
Theorem narrow_image_gets_zero_width
        (W : World) (image : Image) (max_size : Z) :
  0 < width image -> width image <= height image -> height image < 2 ^ 31 ->
  0 <= max_size -> width image * max_size < height image ->
  resize_size (size image) max_size = Ok (0, max_size)
  /\ resize_image W image max_size = image_resize W image (0, max_size)
  /\ (resampler_rejects_empty W ->
      resize_image W image max_size
      = Raise (mk_exn ValueError "height and width must be > 0")).
Proof.
  intros Hw Hwh Hh Hms Hprod.
  assert (E : resize_size (size image) max_size = Ok (0, max_size)).
  { unfold size. apply ResizeFacts.narrow_width_zero; assumption. }
  split; [exact E |].
  assert (E' : resize_image W image max_size = image_resize W image (0, max_size)).
  { unfold resize_image. rewrite E. reflexivity. }
  split; [exact E' |].
  intros HW. rewrite E'. apply HW.
  - unfold size. intros H. injection H as H _. lia.
  - left. cbn. lia.
Qed.

Lemma narrow_image_gets_zero_width_witness :
  resize_size (size sample_sliver) 500 = Ok (0, 500)
  /\ resize_image sample_world sample_sliver 500
     = Raise (mk_exn ValueError "height and width must be > 0").
Proof.
  assert (H1 : 0 < width sample_sliver) by reflexivity.
  assert (H2 : width sample_sliver <= height sample_sliver)
    by (vm_compute; discriminate).
  assert (H3 : height sample_sliver < 2 ^ 31) by reflexivity.
  assert (H4 : 0 <= 500) by (vm_compute; discriminate).
  assert (H5 : width sample_sliver * 500 < height sample_sliver) by reflexivity.
  destruct (narrow_image_gets_zero_width sample_world sample_sliver 500
              H1 H2 H3 H4 H5) as (Hsize & _ & Hraise).
  split; [exact Hsize |]. apply Hraise. exact sample_world_rejects_empty.
Defined.

(** C10 as stated fails: for the 1 x 1001 picture and max_size 500 the
    computed size is (0, 500), and with a resampler that checks the size as
    the imaging library does the resizer raises [ValueError]; it returns no
    image, of width 0 or any other. *)
Lemma narrow_image_returns_no_image_counterexample :
  resize_size (size sample_sliver) 500 = Ok (0, 500)
  /\ resampler_rejects_empty sample_world
  /\ resize_image sample_world sample_sliver 500
     = Raise (mk_exn ValueError "height and width must be > 0")
  /\ forall out, resize_image sample_world sample_sliver 500 <> Ok out.
Proof.
  assert (E : resize_image sample_world sample_sliver 500
              = Raise (mk_exn ValueError "height and width must be > 0"))
    by (vm_compute; reflexivity).
  split; [vm_compute; reflexivity |].
  split; [exact sample_world_rejects_empty |].
  split; [exact E |].
  intros out H. rewrite E in H. discriminate H.
Qed.

(* ================================================================== *)
(** * More on the resizer *)
(* ================================================================== *)

Module ResizeExact.
Import PyFloat PyFloatFacts ResizeFacts ResizeBounds.
Local Open Scope Q_scope.

Lemma rne_exact (s : Q) (k : Z) : s == inject_Z k -> rne s = k.
Proof.
  intros Hs. unfold rne.
  assert (Hf : Qfloor s = k) by (rewrite Hs; apply Qfloor_Z).
  rewrite Hf.
  assert (Hc : Qcompare (s - inject_Z k) (1 # 2) = Lt).
  { apply Qlt_alt. rewrite Hs. setoid_replace (inject_Z k - inject_Z k) with 0 by ring.
    reflexivity. }
  rewrite Hc. reflexivity.
Qed.

(** An integer below [2 ^ 53] is a binary64 value: rounding returns it. *)
Lemma round53_exact (q : Q) (z : Z) :
  (0 < z < 2 ^ 53)%Z -> q == inject_Z z ->
  exists r, round53 q = Some r /\ r == inject_Z z.
Proof.
  intros Hz Hq.
  assert (Z1 : 1 <= inject_Z z) by (apply inject_pos; lia).
  assert (Z2 : inject_Z z < 2 ^ 53).
  { rewrite <- pow2_inject by lia. rewrite <- Zlt_Qlt. lia. }
  assert (Hpos : 0 < q) by (rewrite Hq; lra).
  unfold round53.
  assert (E0 : Qeq_bool q 0 = false).
  { destruct (Qeq_bool q 0) eqn:E; [| reflexivity].
    apply Qeq_bool_iff in E. lra. }
  rewrite E0.
  assert (Eabs : Qabs q = q).
  { destruct q as [n d]. unfold Qlt in Hpos. cbn in Hpos. cbn. f_equal. lia. }
  rewrite Eabs.
  destruct (ilog2_spec q Hpos) as [L1 L2].
  set (l := ilog2 q) in *.
  assert (Hl0 : (0 <= l)%Z).
  { destruct (Z_le_gt_dec 0 l) as [H | H]; [exact H | exfalso].
    assert (2 ^ (l + 1) <= 2 ^ 0) by (apply pow2_le; lia).
    change (2 ^ 0) with 1 in *. lra. }
  assert (Hl52 : (l <= 52)%Z).
  { destruct (Z_le_gt_dec l 52) as [H | H]; [exact H | exfalso].
    assert (2 ^ 53 <= 2 ^ l) by (apply pow2_le; lia). lra. }
  rewrite (Z.max_l (l - 52) (-1074)) by lia.
  set (e := (l - 52)%Z).
  pose proof (pow2_pos e) as He.
  assert (Hinv : 2 ^ e * inject_Z (2 ^ (52 - l)) == 1).
  { rewrite pow2_inject by lia. rewrite <- pow2_add.
    unfold e. replace (l - 52 + (52 - l))%Z with 0%Z by lia. reflexivity. }
  assert (Hs : q / 2 ^ e == inject_Z (z * 2 ^ (52 - l))).
  { rewrite inject_Z_mult, Hq.
    apply (Qmult_inj_r _ _ (2 ^ e)); [lra |].
    setoid_replace (inject_Z z / 2 ^ e * 2 ^ e) with (inject_Z z) by (field; lra).
    rewrite <- Qmult_assoc, (Qmult_comm (inject_Z (2 ^ (52 - l)))), Hinv. ring. }
  rewrite (rne_exact _ _ Hs).
  assert (Hr : inject_Z (z * 2 ^ (52 - l)) * 2 ^ e == inject_Z z).
  { rewrite inject_Z_mult, <- Qmult_assoc,
      (Qmult_comm (inject_Z (2 ^ (52 - l)))), Hinv. ring. }
  assert (Hov : Qle_bool (2 ^ 1024) (inject_Z (z * 2 ^ (52 - l)) * 2 ^ e) = false).
  { destruct (Qle_bool (2 ^ 1024) (inject_Z (z * 2 ^ (52 - l)) * 2 ^ e)) eqn:E;
      [| reflexivity].
    apply Qle_bool_iff in E. rewrite Hr in E.
    assert (2 ^ 53 <= 2 ^ 1024) by (apply pow2_le; lia). lra. }
  rewrite Hov.
  assert (Hsg : Qle_bool 0 q = true) by (apply Qle_bool_iff; lra).
  rewrite Hsg. eexists. split; [reflexivity | exact Hr].
Qed.

Lemma to_int_exact (x : Q) (z : Z) : (0 <= z)%Z -> x == inject_Z z -> to_int x = z.
Proof.
  intros Hz Hx. unfold to_int.
  assert (E : Qle_bool 0 x = true).
  { apply Qle_bool_iff. rewrite Hx. change 0 with (inject_Z 0).
    rewrite <- Zle_Qle. exact Hz. }
  rewrite E, Hx. apply Qfloor_Z.
Qed.

(** A square picture is resized to exactly [max_size] x [max_size]: the
    aspect ratio is exactly 1.0 and the product with it is exact. *)
Lemma resize_size_square (w max_size : Z) :
  (0 < w)%Z -> (0 <= max_size < 2 ^ 53)%Z ->
  resize_size (w, w) max_size = Ok (max_size, max_size).
Proof.
  intros Hw Hms. unfold resize_size, int_truediv.
  assert (E1 : (w =? 0)%Z = false) by (apply Z.eqb_neq; lia).
  rewrite E1.
  assert (W1 := inject_pos w ltac:(lia)).
  assert (Hone : inject_Z w / inject_Z w == inject_Z 1).
  { change (inject_Z 1) with 1. field. lra. }
  destruct (round53_exact _ 1 ltac:(lia) Hone) as (ar & Ear & Har).
  unfold rounded at 1. rewrite Ear. cbn [bind].
  rewrite Z.ltb_irrefl.
  unfold int_mul_float, of_int.
  destruct (Z.eq_dec max_size 0) as [-> | Hnz].
  - unfold rounded at 1. change (round53 (inject_Z 0)) with (Some 0).
    cbn [bind]. unfold mul, rounded, round53.
    assert (E3 : Qeq_bool (0 * ar) 0 = true) by (apply Qeq_bool_iff; ring).
    rewrite E3. cbn [bind]. reflexivity.
  - destruct (round53_exact (inject_Z max_size) max_size ltac:(lia)
                            ltac:(reflexivity)) as (m & Em & Hm).
    unfold rounded at 1. rewrite Em. cbn [bind]. unfold mul.
    assert (Hp : m * ar == inject_Z max_size).
    { rewrite Hm, Har. change (inject_Z 1) with 1. ring. }
    destruct (round53_exact _ max_size ltac:(lia) Hp) as (x & Ex & Hx).
    unfold rounded. rewrite Ex. cbn [bind].
    rewrite (to_int_exact x max_size) by (lia || exact Hx). reflexivity.
Qed.

End ResizeExact.

(** X2 (square pictures).  [resize_image] hands the resampler exactly
    (max_size, max_size) for every square picture. *)
Theorem square_image_resizes_to_square (W : World) (image : Image) (max_size : Z) :
  0 < width image -> height image = width image -> 0 <= max_size < 2 ^ 53 ->
  resize_image W image max_size = image_resize W image (max_size, max_size).
Proof.
  intros Hw Hh Hms. unfold resize_image, size. rewrite Hh.
  rewrite ResizeExact.resize_size_square by assumption. reflexivity.
Qed.

Lemma square_image_resizes_to_square_witness :
  resize_image sample_world sample_framed 500
  = image_resize sample_world sample_framed (500, 500).
Proof.
  apply (square_image_resizes_to_square sample_world sample_framed 500);
    first [reflexivity | vm_compute; split; [discriminate | reflexivity]].
Defined.

(** X1 (aspect ratio).  For picture sides below 2^31 and a positive
    max_size with max_size * side below 2^50, the resizer always returns a
    size: the controlled side (the width when width > height, the height
    otherwise) is max_size, the free side is the proportional size rounded
    down or one pixel less, and never exceeds max_size. *)
Theorem resize_keeps_aspect_within_one_pixel (w h max_size : Z) :
  0 < w < 2 ^ 31 -> 0 < h < 2 ^ 31 -> 0 < max_size ->
  max_size * w < 2 ^ 50 -> max_size * h < 2 ^ 50 ->
  exists free,
    resize_size (w, h) max_size
    = Ok (if h <? w then (max_size, free) else (free, max_size))
    /\ (if h <? w then max_size * h / w else max_size * w / h) - 1 <= free
    /\ free <= (if h <? w then max_size * h / w else max_size * w / h)
    /\ free <= max_size.
Proof.
  intros Hw Hh Hms Hmw Hmh.
  destruct (ResizeBounds.resize_size_within_one w h max_size Hw Hh Hms Hmw Hmh)
    as (free & E & Hone & Hle).
  exists free. split; [exact E |]. cbv zeta in Hone. lia.
Qed.

Lemma resize_keeps_aspect_within_one_pixel_witness :
  exists free,
    resize_size (2000, 1500) 500 = Ok (500, free)
    /\ 500 * 1500 / 2000 - 1 <= free
    /\ free <= 500 * 1500 / 2000
    /\ free <= 500.
Proof.
  apply (resize_keeps_aspect_within_one_pixel 2000 1500 500); lia.
Defined.

(* ================================================================== *)
(** * More on grey suppression *)
(* ================================================================== *)

Lemma suppress_idempotent (thr rep : color) (p : pixel) :
  suppress thr rep (suppress thr rep p) = suppress thr rep p.
Proof.
  destruct p as [| r [| g [| b [| a [| ? ?]]]]]; try reflexivity.
  unfold suppress. destruct rep as [[cr cg] cb].
  destruct (is_grey thr r g b) eqn:E.
  - destruct (is_grey thr cr cg cb); reflexivity.
  - rewrite E. reflexivity.
Qed.

Lemma concat_singletons (l : list Z) : concat (map (fun v => [v]) l) = l.
Proof. induction l as [| a l IH]; [reflexivity |]. cbn. rewrite IH. reflexivity. Qed.

(** X5 (idempotence).  Suppressing grey twice is the same as suppressing it
    once, for every image, threshold and replacement colour (an image the
    function rejects is rejected either way). *)
Theorem remove_grey_background_idempotent
        (image : Image) (grey_threshold replace_color : color) :
  (out <- remove_grey_background image grey_threshold replace_color ;;
   remove_grey_background out grey_threshold replace_color)
  = remove_grey_background image grey_threshold replace_color.
Proof.
  unfold remove_grey_background.
  destruct (bands (mode image)) as [| [| [| [| [| n]]]]] eqn:Eb; try reflexivity.
  - destruct (width image =? 4) eqn:Ew; [| reflexivity].
    destruct (out_of_uint8 replace_color) eqn:Ec; [reflexivity |].
    cbn [bind mode bands width height rows]. rewrite Ew.
    do 2 f_equal. rewrite map_map. apply map_ext. intros row.
    rewrite concat_singletons, suppress_idempotent. reflexivity.
  - destruct (out_of_uint8 replace_color) eqn:Ec; [reflexivity |].
    cbn [bind mode bands width height rows].
    do 2 f_equal. rewrite map_map. apply map_ext. intros row.
    rewrite map_map. apply map_ext. intros p. apply suppress_idempotent.
Qed.

Lemma pixel_ok_intro (m : Mode) (p : pixel) :
  length p = bands m -> (forall v, In v p -> 0 <= v <= 255) ->
  pixel_ok m p = true.
Proof.
  intros Hl Hb. unfold pixel_ok. apply andb_true_iff. split.
  - apply Nat.eqb_eq. exact Hl.
  - apply forallb_forall. intros v Hv. specialize (Hb v Hv).
    unfold byte_ok. lia.
Qed.

Lemma suppress_ok (thr rep : color) (p : pixel) :
  color_ok rep = true ->
  pixel_ok RGBA p = true -> pixel_ok RGBA (suppress thr rep p) = true.
Proof.
  intros Hc Hp. destruct (pixel_ok_spec _ _ Hp) as [Hl Hb].
  destruct (pixel4 p Hl) as (r & g & b & a & ->).
  unfold suppress. destruct rep as [[cr cg] cb].
  destruct (color_ok_spec cr cg cb Hc) as (Hr & Hg & Hcb).
  destruct (is_grey thr r g b); [| exact Hp].
  apply pixel_ok_intro; [reflexivity |].
  intros v [<- | [<- | [<- | [<- | []]]]]; try assumption.
  apply Hb. cbn. tauto.
Qed.

Lemma suppress_default_ok (p : pixel) :
  pixel_ok RGBA p = true ->
  pixel_ok RGBA (suppress default_grey_threshold white p) = true.
Proof. apply suppress_ok. reflexivity. Qed.

Lemma wf_map_pixels (g : pixel -> pixel) (m m' : Mode) (img : Image) pal tr :
  mode img = m ->
  (forall p, pixel_ok m p = true -> pixel_ok m' (g p) = true) ->
  wf_image img = true ->
  wf_image (mk_image m' (width img) (height img) (map (map g) (rows img)) pal tr)
  = true.
Proof.
  intros Hm Hg Hwf.
  destruct (wf_image_spec img Hwf) as (Hw & Hh & Hlen & Hrows).
  unfold wf_image. cbn [mode width height rows].
  rewrite !andb_true_iff. repeat split; try lia.
  - apply Nat.eqb_eq. rewrite length_map. exact Hlen.
  - apply forallb_forall. intros row' Hrow'.
    apply in_map_iff in Hrow'. destruct Hrow' as (row & <- & Hrow).
    destruct (Hrows row Hrow) as [Hl Hp].
    apply andb_true_iff. split.
    + apply Nat.eqb_eq. rewrite length_map. exact Hl.
    + apply forallb_forall. intros p' Hp'.
      apply in_map_iff in Hp'. destruct Hp' as (p & <- & Hin).
      apply Hg. rewrite <- Hm. apply Hp. exact Hin.
Qed.

Lemma suppress_keeps_alpha (thr rep : color) (p : pixel) :
  alpha_of (suppress thr rep p) = alpha_of p.
Proof.
  destruct p as [| r [| g [| b [| a [| ? ?]]]]]; try reflexivity.
  unfold suppress. destruct rep as [[cr cg] cb].
  destruct (is_grey thr r g b); reflexivity.
Qed.

(** X6 (invariant).  On a well-formed RGBA image grey suppression with an
    8-bit replacement colour returns a well-formed RGBA image of the same
    size with the same alpha band, for any threshold.  With a replacement
    colour that has a channel outside 0..255 it returns nothing: storing the
    colour into the 8-bit array raises [OverflowError]. *)
Theorem remove_grey_background_keeps_image_well_formed
        (image : Image) (grey_threshold replace_color : color) :
  wf_image image = true -> mode image = RGBA ->
  (color_ok replace_color = true ->
   exists out,
     remove_grey_background image grey_threshold replace_color = Ok out
     /\ wf_image out = true /\ mode out = RGBA /\ size out = size image
     /\ forall x y, alpha_of (px out x y) = alpha_of (px image x y))
  /\ (color_ok replace_color = false ->
      exists msg,
        remove_grey_background image grey_threshold replace_color
        = Raise (mk_exn OverflowError msg)).
Proof.
  intros Hwf Hm. split; intros Hc.
  - rewrite remove_grey_rgba by assumption.
    eexists. split; [reflexivity |]. split; [| split; [reflexivity |]].
    + apply (wf_map_pixels _ RGBA RGBA image [] None Hm); [| exact Hwf].
      intros p. apply suppress_ok. exact Hc.
    + split; [reflexivity |]. intros x y.
      rewrite (px_map (suppress grey_threshold replace_color) RGBA image [] None)
        by reflexivity.
      apply suppress_keeps_alpha.
  - destruct (out_of_uint8_bad _ Hc) as [v Ev].
    unfold remove_grey_background. rewrite Hm. cbn [bands]. rewrite Ev.
    eexists. reflexivity.
Qed.

Lemma remove_grey_background_keeps_image_well_formed_witness :
  (exists out,
     remove_grey_background sample_rgba (200, 200, 200) (12, 34, 56) = Ok out
     /\ wf_image out = true /\ mode out = RGBA /\ size out = size sample_rgba
     /\ forall x y, alpha_of (px out x y) = alpha_of (px sample_rgba x y))
  /\ (exists msg,
        remove_grey_background sample_rgba (200, 200, 200) (300, -1, 256)
        = Raise (mk_exn OverflowError msg)).
Proof.
  split.
  - apply (remove_grey_background_keeps_image_well_formed sample_rgba
             (200, 200, 200) (12, 34, 56)); reflexivity.
  - apply (remove_grey_background_keeps_image_well_formed sample_rgba
             (200, 200, 200) (300, -1, 256)); reflexivity.
Defined.

(* ================================================================== *)
(** * More on the normaliser *)
(* ================================================================== *)

Lemma div255_unfold (a : Z) : div255 a = ((a + 128) / 256 + (a + 128)) / 256.
Proof.
  unfold div255. rewrite !Z.shiftr_div_pow2 by lia. reflexivity.
Qed.

Lemma div255_mono (a b : Z) : a <= b -> div255 a <= div255 b.
Proof.
  intros H. rewrite !div255_unfold.
  apply Z.div_le_mono; [lia |].
  assert ((a + 128) / 256 <= (b + 128) / 256) by (apply Z.div_le_mono; lia).
  lia.
Qed.

(** The blend of two 8-bit values lies between them. *)
Lemma blend8_between (mask in1 in2 : Z) :
  0 <= mask <= 255 -> 0 <= in1 <= 255 -> 0 <= in2 <= 255 ->
  Z.min in1 in2 <= blend8 mask in1 in2 <= Z.max in1 in2.
Proof.
  intros Hm H1 H2. unfold blend8. split.
  - apply Z.le_trans with (div255 (Z.min in1 in2 * 255)).
    + rewrite div255_exact by lia. lia.
    + apply div255_mono. nia.
  - apply Z.le_trans with (div255 (Z.max in1 in2 * 255)).
    + apply div255_mono. nia.
    + rewrite div255_exact by lia. lia.
Qed.

Lemma flatten_rgba (bg : color) (r g b a : Z) :
  flatten_pixel bg [r; g; b; a]
  = let '(cr, cg, cb) := bg in
    [blend8 a (clip8 cr) r; blend8 a (clip8 cg) g; blend8 a (clip8 cb) b].
Proof. destruct bg as [[cr cg] cb]. reflexivity. Qed.

Lemma flatten_ok (bg : color) (p : pixel) :
  pixel_ok RGBA p = true -> pixel_ok RGB (flatten_pixel bg p) = true.
Proof.
  intros Hp. destruct (pixel_ok_spec _ _ Hp) as [Hl Hb].
  destruct (pixel4 p Hl) as (r & g & b & a & ->).
  rewrite flatten_rgba. destruct bg as [[cr cg] cb].
  assert (Hr : 0 <= r <= 255) by (apply Hb; cbn; tauto).
  assert (Hg : 0 <= g <= 255) by (apply Hb; cbn; tauto).
  assert (Hbl : 0 <= b <= 255) by (apply Hb; cbn; tauto).
  assert (Ha : 0 <= a <= 255) by (apply Hb; cbn; tauto).
  apply pixel_ok_intro; [reflexivity |].
  pose proof (clip8_range cr). pose proof (clip8_range cg).
  pose proof (clip8_range cb).
  intros v [<- | [<- | [<- | []]]].
  - pose proof (blend8_between a (clip8 cr) r Ha (clip8_range cr) Hr). lia.
  - pose proof (blend8_between a (clip8 cg) g Ha (clip8_range cg) Hg). lia.
  - pose proof (blend8_between a (clip8 cb) b Ha (clip8_range cb) Hbl). lia.
Qed.

Lemma wf_pixel_rgba (img : Image) (x y : Z) :
  wf_image img = true -> mode img = RGBA -> in_image img x y = true ->
  pixel_ok RGBA (px img x y) = true.
Proof. intros Hwf Hm Hin. rewrite <- Hm. apply wf_pixel; assumption. Qed.

Lemma ensure_rgba_well_formed (image : Image) (background_color : color) :
  wf_image image = true -> mode image = RGBA ->
  exists out,
    ensure_pure_white_background image background_color = Ok out
    /\ wf_image out = true /\ mode out = RGB /\ size out = size image.
Proof.
  intros Hwf Hm. destruct (wf_image_spec image Hwf) as (Hw & Hh & _).
  rewrite ensure_rgba by assumption.
  eexists. split; [reflexivity |]. split; [| split; reflexivity].
  apply wf_tabulate; try assumption.
  intros x y Hx Hy. apply flatten_ok, suppress_default_ok, wf_pixel_rgba; try assumption.
  apply in_image_iff. lia.
Qed.

(** X9 (invariant).  On a well-formed RGBA image the normaliser returns a
    well-formed RGB image of the same size -- three channels per pixel, each
    in 0..255 -- for any background colour, in range or not. *)
Theorem normalizer_output_is_well_formed_rgb
        (image : Image) (background_color : color) :
  wf_image image = true -> mode image = RGBA ->
  exists out,
    ensure_pure_white_background image background_color = Ok out
    /\ wf_image out = true /\ mode out = RGB /\ size out = size image.
Proof. exact (ensure_rgba_well_formed image background_color). Qed.

Lemma normalizer_output_is_well_formed_rgb_witness :
  exists out,
    ensure_pure_white_background sample_rgba (300, -20, 128) = Ok out
    /\ wf_image out = true /\ mode out = RGB /\ size out = size sample_rgba.
Proof.
  apply (normalizer_output_is_well_formed_rgb sample_rgba (300, -20, 128));
    reflexivity.
Defined.

(** X10 (blending).  Each channel of a normalised pixel lies between the
    channel of the grey-suppressed input pixel and the channel of the
    background colour: flattening never produces a value outside the two it
    mixes. *)
Theorem normalizer_blends_between_pixel_and_background
        (image : Image) (cr cg cb : Z) (x y : Z) :
  wf_image image = true -> mode image = RGBA -> color_ok (cr, cg, cb) = true ->
  in_image image x y = true ->
  exists out r g b a r' g' b',
    ensure_pure_white_background image (cr, cg, cb) = Ok out
    /\ suppress default_grey_threshold white (px image x y) = [r; g; b; a]
    /\ px out x y = [r'; g'; b']
    /\ Z.min cr r <= r' <= Z.max cr r
    /\ Z.min cg g <= g' <= Z.max cg g
    /\ Z.min cb b <= b' <= Z.max cb b.
Proof.
  intros Hwf Hm Hc Hin. destruct (wf_image_spec image Hwf) as (Hw & Hh & _).
  rewrite ensure_rgba by assumption.
  pose proof (suppress_default_ok _
                (wf_pixel_rgba image x y Hwf Hm Hin)) as Hs.
  destruct (pixel_ok_spec _ _ Hs) as [Hl Hb].
  destruct (pixel4 _ Hl) as (r & g & b & a & E).
  rewrite E in Hb.
  assert (Hr : 0 <= r <= 255) by (apply Hb; cbn; tauto).
  assert (Hg : 0 <= g <= 255) by (apply Hb; cbn; tauto).
  assert (Hbl : 0 <= b <= 255) by (apply Hb; cbn; tauto).
  assert (Ha : 0 <= a <= 255) by (apply Hb; cbn; tauto).
  destruct (color_ok_spec cr cg cb Hc) as (Hcr & Hcg & Hcb).
  eexists. exists r, g, b, a.
  exists (blend8 a cr r), (blend8 a cg g), (blend8 a cb b).
  split; [reflexivity |]. split; [exact E |]. split.
  - apply in_image_iff in Hin. rewrite px_tabulate by lia.
    rewrite E, flatten_rgba. rewrite !clip8_id by assumption. reflexivity.
  - split; [| split]; apply blend8_between; assumption.
Qed.

Lemma normalizer_blends_between_pixel_and_background_witness :
  exists out r g b a r' g' b',
    ensure_pure_white_background sample_rgba (0, 100, 255) = Ok out
    /\ suppress default_grey_threshold white (px sample_rgba 1 0) = [r; g; b; a]
    /\ px out 1 0 = [r'; g'; b']
    /\ Z.min 0 r <= r' <= Z.max 0 r
    /\ Z.min 100 g <= g' <= Z.max 100 g
    /\ Z.min 255 b <= b' <= Z.max 255 b.
Proof.
  apply (normalizer_blends_between_pixel_and_background sample_rgba 0 100 255 1 0);
    reflexivity.
Defined.

Lemma flatten_opaque_any (bg : color) (p : pixel) :
  pixel_ok RGBA p = true -> alpha_of p = 255 ->
  flatten_pixel bg p = firstn 3 p.
Proof.
  intros Hp Ha. destruct (pixel_ok_spec _ _ Hp) as [Hl Hb].
  destruct (pixel4 p Hl) as (r & g & b & a & ->).
  cbn in Ha. subst a. cbn [firstn].
  apply flatten_opaque; apply Hb; cbn; tauto.
Qed.

(** X11 (opaque input).  On a fully opaque RGBA image the background colour
    plays no part: the normaliser returns the grey-suppressed image without
    its alpha band, whatever background colour is passed. *)
Theorem normalizer_ignores_background_on_opaque_input
        (image : Image) (background_color : color) :
  wf_image image = true -> mode image = RGBA ->
  (forall x y, in_image image x y = true -> alpha_of (px image x y) = 255) ->
  ensure_pure_white_background image background_color
  = Ok (mk_image RGB (width image) (height image)
          (tabulate (width image) (height image)
             (fun x y => firstn 3 (suppress default_grey_threshold white
                                            (px image x y))))
          [] None).
Proof.
  intros Hwf Hm Hop. destruct (wf_image_spec image Hwf) as (Hw & Hh & _).
  rewrite ensure_rgba by assumption. do 2 f_equal.
  apply tabulate_ext. intros x y Hx Hy.
  assert (Hin : in_image image x y = true) by (apply in_image_iff; lia).
  apply flatten_opaque_any.
  - apply suppress_default_ok, wf_pixel_rgba; assumption.
  - rewrite suppress_keeps_alpha. apply Hop. exact Hin.
Qed.

Lemma normalizer_ignores_background_on_opaque_input_witness :
  ensure_pure_white_background sample_grey_opaque (1, 2, 3)
  = Ok (mk_image RGB 2 1
          (tabulate 2 1
             (fun x y => firstn 3 (suppress default_grey_threshold white
                                            (px sample_grey_opaque x y))))
          [] None).
Proof.
  apply (normalizer_ignores_background_on_opaque_input sample_grey_opaque (1, 2, 3));
    try reflexivity.
  intros x y Hin. apply in_image_iff in Hin. cbn in Hin.
  assert (Hy : y = 0) by lia. assert (Hx : x = 0 \/ x = 1) by lia.
  subst y. destruct Hx as [-> | ->]; reflexivity.
Defined.

Lemma bands4_rgba (m : Mode) : bands m = 4%nat -> m = RGBA.
Proof. destruct m; cbn; congruence. Qed.

(** X8 (when the normaliser fails).  On a well-formed image the normaliser
    succeeds exactly when the image has four bands, or has a single band and
    is four pixels wide (the unpacking of line 12 then splits the columns);
    on every other image it raises [ValueError]. *)
Theorem normalizer_succeeds_iff_four_way_unpack
        (image : Image) (background_color : color) :
  wf_image image = true ->
  is_ok (ensure_pure_white_background image background_color)
  = (bands (mode image) =? 4)%nat
    || ((bands (mode image) =? 1)%nat && (width image =? 4))
  /\ (is_ok (ensure_pure_white_background image background_color) = false ->
      exists msg, ensure_pure_white_background image background_color
                  = Raise (mk_exn ValueError msg)).
Proof.
  intros Hwf. destruct (wf_image_spec image Hwf) as (Hw & Hh & _).
  destruct (bands (mode image)) as [| [| [| [| [| n]]]]] eqn:Eb.
  - destruct (mode image); discriminate.
  - unfold ensure_pure_white_background, remove_grey_background. rewrite Eb.
    destruct (width image =? 4) eqn:Ew.
    + cbn. split; [reflexivity | discriminate].
    + cbn. split; [reflexivity |]. intros _. eexists. reflexivity.
  - unfold ensure_pure_white_background, remove_grey_background. rewrite Eb.
    cbn. split; [reflexivity |]. intros _. eexists. reflexivity.
  - unfold ensure_pure_white_background, remove_grey_background. rewrite Eb.
    cbn. split; [reflexivity |]. intros _. eexists. reflexivity.
  - rewrite ensure_rgba by (apply bands4_rgba; assumption) || assumption.
    cbn. split; [reflexivity | discriminate].
  - destruct (mode image); discriminate.
Qed.

Lemma normalizer_succeeds_iff_four_way_unpack_witness :
  is_ok (ensure_pure_white_background sample_rgb white) = false.
Proof.
  apply (normalizer_succeeds_iff_four_way_unpack sample_rgb white).
  reflexivity.
Defined.

(* ================================================================== *)
(** * More on the trimmer *)
(* ================================================================== *)

Lemma getbbox_inside (img : Image) (x0 y0 x1 y1 : Z) :
  0 <= width img -> 0 <= height img ->
  getbbox img = Some (x0, y0, x1, y1) ->
  0 <= x0 < x1 /\ x1 <= width img /\ 0 <= y0 < y1 /\ y1 <= height img.
Proof.
  intros Hw Hh E. pose proof (getbbox_spec img Hw Hh) as S. rewrite E in S.
  destruct S as (Hall & (ya & Da) & (yb & Db) & (xc & Dc) & (xd & Dd)).
  pose proof (Hall _ _ Da). pose proof (Hall _ _ Dc).
  destruct Da as [Ia _], Db as [Ib _], Dc as [Ic _], Dd as [Id _].
  apply in_image_iff in Ia, Ib, Ic, Id. lia.
Qed.

Lemma trim_border_total (image : Image) :
  wf_image image = true ->
  (nonempty image = false ->
   trim_border image None
   = Raise (mk_exn IndexError "image index out of range"))
  /\ (nonempty image = true ->
      exists out,
        trim_border image None = Ok out
        /\ wf_image out = true /\ nonempty out = true
        /\ mode out = mode image
        /\ width out <= width image /\ height out <= height image).
Proof.
  intros Hwf. split.
  - intros Hne. unfold trim_border, getpixel. cbn [Z.ltb Z.compare].
    assert (E : in_image image 0 0 = false).
    { unfold nonempty in Hne. unfold in_image. lia. }
    rewrite E. reflexivity.
  - intros Hne. rewrite trim_border_unfold by assumption.
    destruct (wf_image_spec image Hwf) as (Hw & Hh & _).
    set (d := difference image
                (uniform_image (mode image) (width image) (height image)
                               (px image 0 0))).
    destruct (getbbox d) as [[[[x0 y0] x1] y1] |] eqn:E.
    + destruct (getbbox_inside d x0 y0 x1 y1 Hw Hh E) as (Bx0 & Bx1 & By0 & By1).
      cbn [width height d difference] in Bx1, By1.
      rewrite crop_inside by lia.
      eexists. split; [reflexivity |]. split; [| split; [| split; [reflexivity |]]].
      * apply wf_tabulate; try lia.
        intros x y Hx Hy. apply wf_pixel; [exact Hwf |].
        apply in_image_iff. lia.
      * apply nonempty_iff. cbn [width height]. lia.
      * cbn [width height]. lia.
    + exists image. repeat split; try assumption; lia.
Qed.

(** X12 (totality).  Without a border colour the trimmer fails on a
    well-formed image exactly when the image is empty, with the IndexError of
    reading the pixel at (0, 0).  On a non-empty image of any mode it returns
    a well-formed, non-empty image of the same mode that is no wider and no
    taller than the input. *)
Theorem trim_border_fails_only_on_empty_image (image : Image) :
  wf_image image = true ->
  (nonempty image = false ->
   trim_border image None
   = Raise (mk_exn IndexError "image index out of range"))
  /\ (nonempty image = true ->
      exists out,
        trim_border image None = Ok out
        /\ wf_image out = true /\ nonempty out = true
        /\ mode out = mode image
        /\ width out <= width image /\ height out <= height image).
Proof. exact (trim_border_total image). Qed.

Lemma trim_border_fails_only_on_empty_image_witness :
  exists out,
    trim_border sample_rgba None = Ok out
    /\ wf_image out = true /\ nonempty out = true
    /\ mode out = mode sample_rgba
    /\ width out <= width sample_rgba /\ height out <= height sample_rgba.
Proof.
  apply (trim_border_fails_only_on_empty_image sample_rgba); reflexivity.
Defined.

Lemma trim_uniform (m : Mode) (w h : Z) (p : pixel) :
  0 < w -> 0 < h -> pixel_ok m p = true -> has_alpha m = false ->
  trim_border (uniform_image m w h p) None = Ok (uniform_image m w h p).
Proof.
  intros Hw Hh Hp Ha.
  assert (Hwf : wf_image (uniform_image m w h p) = true).
  { apply wf_tabulate; try lia. intros; exact Hp. }
  assert (Hne : nonempty (uniform_image m w h p) = true).
  { apply nonempty_iff. cbn. lia. }
  destruct (trim_border_cases _ Hwf Hne Ha)
    as [[_ Htrim] | (x0 & y0 & x1 & y1 & BB & _)]; [exact Htrim | exfalso].
  destruct BB as (_ & (y & [Hin Hd]) & _).
  apply Hd. unfold uniform_image.
  apply in_image_iff in Hin. cbn [width height uniform_image] in Hin.
  rewrite !px_tabulate by lia. reflexivity.
Qed.

(** X13 (no subject).  A fully transparent, non-empty RGBA picture has no
    subject: after normalising and trimming it is the uniform image of the
    background colour, in the original size. *)
Theorem transparent_picture_is_not_trimmed
        (image : Image) (background_color : color) :
  wf_image image = true -> nonempty image = true -> mode image = RGBA ->
  color_ok background_color = true ->
  (forall x y, in_image image x y = true -> alpha_of (px image x y) = 0) ->
  (img <- ensure_pure_white_background image background_color ;;
   trim_border img None)
  = Ok (uniform_image RGB (width image) (height image)
                      (color_bands background_color)).
Proof.
  intros Hwf Hne Hm Hc Halpha.
  destruct (wf_image_spec image Hwf) as (Hw & Hh & _).
  rewrite ensure_rgba by assumption. cbn [bind].
  assert (E : mk_image RGB (width image) (height image)
                (tabulate (width image) (height image)
                   (fun x y => flatten_pixel background_color
                      (suppress default_grey_threshold white (px image x y))))
                [] None
              = uniform_image RGB (width image) (height image)
                              (color_bands background_color)).
  { unfold uniform_image. f_equal.
    apply tabulate_ext. intros x y Hx Hy.
    assert (Hin : in_image image x y = true) by (apply in_image_iff; lia).
    destruct (rgba_pixel image x y Hwf Hm Hin) as (r & g & b & a & Ep & _).
    specialize (Halpha x y Hin). rewrite Ep in Halpha. cbn in Halpha. subst a.
    rewrite Ep.
    destruct (suppress_alpha default_grey_threshold white r g b 0)
      as (r' & g' & b' & ->).
    apply flatten_transparent. exact Hc. }
  rewrite E. apply nonempty_iff in Hne.
  apply trim_uniform; try lia; [| reflexivity].
  destruct background_color as [[cr cg] cb].
  destruct (color_ok_spec cr cg cb Hc) as (Hr & Hg & Hb).
  apply pixel_ok_intro; [reflexivity |].
  intros v [<- | [<- | [<- | []]]]; assumption.
Qed.

Lemma transparent_picture_is_not_trimmed_witness :
  (img <- ensure_pure_white_background sample_transparent (12, 34, 56) ;;
   trim_border img None)
  = Ok (uniform_image RGB 2 2 [12; 34; 56]).
Proof.
  apply (transparent_picture_is_not_trimmed sample_transparent (12, 34, 56));
    try reflexivity.
  intros x y Hin. apply in_image_iff in Hin. cbn in Hin.
  assert (Hx : x = 0 \/ x = 1) by lia.
  assert (Hy : y = 0 \/ y = 1) by lia.
  destruct Hx as [-> | ->], Hy as [-> | ->]; reflexivity.
Defined.

(* ================================================================== *)
(** * More on centring *)
(* ================================================================== *)

Lemma center_on_canvas_pixels (subject : Image) (cw ch : Z) (bg : color) :
  0 <= cw -> 0 <= ch ->
  center_on_canvas subject (cw, ch) bg
  = Ok (mk_image RGB cw ch
          (tabulate cw ch
             (fun x y =>
                if in_image subject (x - (cw - width subject) / 2)
                                    (y - (ch - height subject) / 2)
                then to_rgb subject (px subject (x - (cw - width subject) / 2)
                                                (y - (ch - height subject) / 2))
                else map clip8 (color_bands bg)))
          [] None).
Proof.
  intros Hw Hh. unfold center_on_canvas, image_new.
  assert (E : (cw <? 0) || (ch <? 0) = false) by lia.
  rewrite E. destruct bg as [[r g] b].
  cbn [color_bands ink length bands Nat.eqb bind fst snd size].
  unfold paste. cbn [mode width height palette transparency convert_pixel].
  do 2 f_equal. apply tabulate_ext. intros x y Hx Hy.
  rewrite px_tabulate by assumption. reflexivity.
Qed.

(** X14 (a subject that fits).  When the subject is no larger than the
    canvas, all of it is shown: its pixel (x, y) is the canvas pixel
    (x + x_offset, y + y_offset); every canvas pixel outside that rectangle
    has the background colour; and the subject is centred to the pixel: the
    margin on the right (below) equals the margin on the left (above) or
    exceeds it by one. *)
Theorem fitting_subject_is_shown_whole_and_centered
        (subject : Image) (cw ch : Z) (background_color : color) :
  0 <= width subject <= cw -> 0 <= height subject <= ch ->
  let x_offset := (cw - width subject) / 2 in
  let y_offset := (ch - height subject) / 2 in
  exists final,
    center_on_canvas subject (cw, ch) background_color = Ok final
    /\ 0 <= x_offset
    /\ x_offset <= cw - width subject - x_offset <= x_offset + 1
    /\ 0 <= y_offset
    /\ y_offset <= ch - height subject - y_offset <= y_offset + 1
    /\ (forall x y, in_image subject x y = true ->
          px final (x + x_offset) (y + y_offset) = to_rgb subject (px subject x y))
    /\ (forall x y, 0 <= x < cw -> 0 <= y < ch ->
          ~ (x_offset <= x < x_offset + width subject
             /\ y_offset <= y < y_offset + height subject) ->
          px final x y = map clip8 (color_bands background_color)).
Proof.
  intros Hw Hh x_offset y_offset.
  rewrite center_on_canvas_pixels by lia. fold x_offset y_offset.
  assert (Dx := Z.div_mod (cw - width subject) 2 ltac:(lia)).
  assert (Mx := Z.mod_pos_bound (cw - width subject) 2 ltac:(lia)).
  assert (Dy := Z.div_mod (ch - height subject) 2 ltac:(lia)).
  assert (My := Z.mod_pos_bound (ch - height subject) 2 ltac:(lia)).
  fold x_offset in Dx. fold y_offset in Dy.
  eexists. split; [reflexivity |]. do 4 (split; [lia |]). split.
  - intros x y Hin. pose proof Hin as Hin'. apply in_image_iff in Hin'.
    rewrite px_tabulate by lia.
    rewrite !Z.add_simpl_r. rewrite Hin. reflexivity.
  - intros x y Hx Hy Hout. rewrite px_tabulate by lia.
    assert (E : in_image subject (x - x_offset) (y - y_offset) = false).
    { unfold in_image. lia. }
    rewrite E. reflexivity.
Qed.

Lemma fitting_subject_is_shown_whole_and_centered_witness :
  exists final,
    center_on_canvas sample_dot (1000, 1000) white = Ok final
    /\ 0 <= 498
    /\ 498 <= 1000 - 4 - 498 <= 498 + 1
    /\ 0 <= 498
    /\ 498 <= 1000 - 3 - 498 <= 498 + 1
    /\ (forall x y, in_image sample_dot x y = true ->
          px final (x + 498) (y + 498) = to_rgb sample_dot (px sample_dot x y))
    /\ (forall x y, 0 <= x < 1000 -> 0 <= y < 1000 ->
          ~ (498 <= x < 498 + 4 /\ 498 <= y < 498 + 3) ->
          px final x y = [255; 255; 255]).
Proof.
  apply (fitting_subject_is_shown_whole_and_centered sample_dot 1000 1000 white);
    cbn; lia.
Defined.

(** X15 (a subject that is too large).  When the subject is at least as
    large as the canvas on both axes, no background shows: every canvas pixel
    is a subject pixel, taken from the central window of the subject -- the
    part cut off on the left (top) equals the part cut off on the right
    (bottom) or exceeds it by one. *)
Theorem oversized_subject_fills_canvas_with_its_center
        (subject : Image) (cw ch : Z) (background_color : color) :
  0 <= cw <= width subject -> 0 <= ch <= height subject ->
  let x_offset := (cw - width subject) / 2 in
  let y_offset := (ch - height subject) / 2 in
  exists final,
    center_on_canvas subject (cw, ch) background_color = Ok final
    /\ 0 <= width subject - cw + x_offset
    /\ width subject - cw + x_offset <= - x_offset
       <= width subject - cw + x_offset + 1
    /\ 0 <= height subject - ch + y_offset
    /\ height subject - ch + y_offset <= - y_offset
       <= height subject - ch + y_offset + 1
    /\ forall x y, 0 <= x < cw -> 0 <= y < ch ->
         in_image subject (x - x_offset) (y - y_offset) = true
         /\ px final x y
            = to_rgb subject (px subject (x - x_offset) (y - y_offset)).
Proof.
  intros Hw Hh x_offset y_offset.
  rewrite center_on_canvas_pixels by lia. fold x_offset y_offset.
  assert (Dx := Z.div_mod (cw - width subject) 2 ltac:(lia)).
  assert (Mx := Z.mod_pos_bound (cw - width subject) 2 ltac:(lia)).
  assert (Dy := Z.div_mod (ch - height subject) 2 ltac:(lia)).
  assert (My := Z.mod_pos_bound (ch - height subject) 2 ltac:(lia)).
  fold x_offset in Dx. fold y_offset in Dy.
  eexists. split; [reflexivity |]. do 4 (split; [lia |]).
  intros x y Hx Hy.
  assert (E : in_image subject (x - x_offset) (y - y_offset) = true).
  { apply in_image_iff. lia. }
  split; [exact E |]. rewrite px_tabulate by lia. rewrite E. reflexivity.
Qed.

Lemma oversized_subject_fills_canvas_with_its_center_witness :
  exists final,
    center_on_canvas sample_framed (1, 2) white = Ok final
    /\ 0 <= 4 - 1 + -2
    /\ 4 - 1 + -2 <= - -2 <= 4 - 1 + -2 + 1
    /\ 0 <= 4 - 2 + -1
    /\ 4 - 2 + -1 <= - -1 <= 4 - 2 + -1 + 1
    /\ forall x y, 0 <= x < 1 -> 0 <= y < 2 ->
         in_image sample_framed (x - -2) (y - -1) = true
         /\ px final x y
            = to_rgb sample_framed (px sample_framed (x - -2) (y - -1)).
Proof.
  apply (oversized_subject_fills_canvas_with_its_center sample_framed 1 2 white);
    cbn; lia.
Defined.

(* ================================================================== *)
(** * More on the driver *)
(* ================================================================== *)

Lemma string_length_app (s t : string) :
  String.length (s ++ t) = (String.length s + String.length t)%nat.
Proof. induction s as [| c s IH]; cbn; [reflexivity | rewrite IH; reflexivity]. Qed.

Lemma substring_whole (t : string) : substring 0 (String.length t) t = t.
Proof. induction t as [| c t IH]; cbn; [reflexivity | rewrite IH; reflexivity]. Qed.

Lemma substring_app_suffix (s t : string) :
  substring (String.length s) (String.length t) (s ++ t) = t.
Proof.
  induction s as [| c s IH]; cbn [String.length append].
  - apply substring_whole.
  - cbn [substring]. exact IH.
Qed.

Lemma substring_split (s : string) : forall n,
  (n <= String.length s)%nat ->
  s = (substring 0 n s ++ substring n (String.length s - n) s)%string.
Proof.
  induction s as [| c s IH]; intros n Hn.
  - cbn in Hn. assert (n = 0%nat) by lia. subst n. reflexivity.
  - destruct n as [| n].
    + rewrite Nat.sub_0_r. rewrite substring_whole. reflexivity.
    + cbn [String.length] in *. cbn [substring append Nat.sub].
      rewrite <- IH by lia. reflexivity.
Qed.

Lemma endswith_iff (s suffix : string) :
  endswith s suffix = true <-> exists stem, s = (stem ++ suffix)%string.
Proof.
  unfold endswith. rewrite andb_true_iff, Nat.leb_le, String.eqb_eq. split.
  - intros [Hk Hsub].
    exists (substring 0 (String.length s - String.length suffix) s).
    pose proof (substring_split s (String.length s - String.length suffix)
                  ltac:(lia)) as Hsplit.
    replace (String.length s - (String.length s - String.length suffix))%nat
      with (String.length suffix) in Hsplit by lia.
    rewrite Hsub in Hsplit. exact Hsplit.
  - intros (stem & ->). rewrite string_length_app. split; [lia |].
    replace (String.length stem + String.length suffix - String.length suffix)%nat
      with (String.length stem) by lia.
    apply substring_app_suffix.
Qed.

Lemma lower_app (s t : string) : lower (s ++ t) = (lower s ++ lower t)%string.
Proof. induction s as [| c s IH]; cbn; [reflexivity | rewrite IH; reflexivity]. Qed.

(** X16 (the extension filter).  A file name is selected exactly when its
    lower-cased form ends with one of the six listed extensions, so the
    letter case of the name does not matter and the extension alone, such as
    ".png", is a selected name too. *)
Theorem image_name_iff_lowercase_extension (filename : string) :
  is_image_name filename = true
  <-> exists stem ext,
        In ext [".png"; ".jpg"; ".jpeg"; ".bmp"; ".gif"; ".webp"]%string
        /\ lower filename = (stem ++ ext)%string.
Proof.
  unfold is_image_name. rewrite existsb_exists. split.
  - intros (ext & Hin & He). apply endswith_iff in He. destruct He as (stem & E).
    exists stem, ext. split; assumption.
  - intros (stem & ext & Hin & E). exists ext. split; [exact Hin |].
    apply endswith_iff. exists stem. exact E.
Qed.

(** X17 (the written file).  When a picture is processed successfully, the
    image that [render] produced has been saved under the output path with its
    extension replaced by ".webp", and the one line printed names that
    path. *)
Theorem processed_image_is_saved_as_webp
        (W : World) (input_path output_path : string) (max_size : Z)
        (final_size : Z * Z) (background_color : color)
        (final : Image) (written_path : string) :
  pipeline W input_path output_path max_size final_size background_color
  = Ok (final, written_path) ->
  written_path = (splitext_root W output_path ++ ".webp")%string
  /\ endswith written_path ".webp" = true
  /\ render W input_path max_size final_size background_color = Ok final
  /\ image_save W final written_path = Ok tt
  /\ process_image W input_path output_path max_size final_size background_color
     = (Ok tt, ["Processed and saved: " ++ written_path]%string).
Proof.
  intros H. pose proof H as H'. unfold pipeline in H.
  apply bind_ok in H. destruct H as (img & Hr & H).
  apply bind_ok in H. destruct H as (u & Hs & H).
  injection H as <- <-. destruct u.
  split; [reflexivity |]. split; [apply endswith_iff; eexists; reflexivity |].
  split; [exact Hr |]. split; [exact Hs |].
  rewrite (surjective_pairing (process_image _ _ _ _ _ _)).
  rewrite process_image_returns, process_image_prints, H'. reflexivity.
Qed.

Lemma processed_image_is_saved_as_webp_witness :
  exists final,
    endswith "out/good.webp" ".webp" = true
    /\ render sample_world "in/good.png" 3 (6, 4) white = Ok final
    /\ process_image sample_world "in/good.png" "out/good.png" 3 (6, 4) white
       = (Ok tt, ["Processed and saved: out/good.webp"]%string).
Proof.
  destruct (pipeline sample_world "in/good.png" "out/good.png" 3 (6, 4) white)
    as [[final written_path] | e] eqn:E; [| vm_compute in E; discriminate].
  assert (Ep : written_path = "out/good.webp"%string).
  { vm_compute in E. injection E as _ <-. reflexivity. }
  subst written_path.
  destruct (processed_image_is_saved_as_webp sample_world "in/good.png"
              "out/good.png" 3 (6, 4) white final "out/good.webp" E)
    as (_ & H1 & H2 & _ & H4).
  exists final. split; [exact H1 |]. split; [exact H2 | exact H4].
Defined.





(** X19 (failures outside the per-image boundary).  A failure to create the
    missing output folder, or to list the input folder, is not caught:
    [process_folder] raises that exception, opens no picture and prints
    nothing. *)
Theorem process_folder_raises_when_folders_fail
        (W : World) (input_folder output_folder : string) (max_size : Z)
        (final_size : Z * Z) (background_color : color) (e : exn) :
  (path_exists W output_folder = false /\ makedirs W output_folder = Raise e)
  \/ ((path_exists W output_folder = true \/ makedirs W output_folder = Ok tt)
      /\ listdir W input_folder = Raise e) ->
  process_folder W input_folder output_folder max_size final_size
                 background_color
  = (Raise e, []).
Proof.
  intros [[Hex Hmk] | [Hdir Hlist]]; unfold process_folder.
  - rewrite Hex, Hmk. reflexivity.
  - assert (E : (if path_exists W output_folder then Ok tt
                 else makedirs W output_folder) = Ok tt).
    { destruct Hdir as [-> | ->]; [reflexivity |].
      destruct (path_exists W output_folder); reflexivity. }
    rewrite E, Hlist. reflexivity.
Qed.

Lemma process_folder_raises_when_folders_fail_witness :
  process_folder sample_unlistable_world "in" "out" 500 (1000, 1000) white
  = (Raise (mk_exn OSError "No such file or directory"), []).
Proof.
  apply (process_folder_raises_when_folders_fail sample_unlistable_world
           "in" "out" 500 (1000, 1000) white).
  right. split; [left |]; reflexivity.
Defined.

(* ================================================================== *)
(** * The stages in sequence *)
(* ================================================================== *)

Lemma palette_entry_ok (img : Image) (i : Z) :
  palette_ok img = true -> pixel_ok RGB (palette_entry img i) = true.
Proof.
  intros Hp. unfold palette_entry, palette_ok in *.
  rewrite forallb_forall in Hp.
  destruct (nth_in_or_default (Z.to_nat i) (palette img) [0; 0; 0]) as [Hin | ->].
  - apply Hp. exact Hin.
  - reflexivity.
Qed.

Lemma pixel1 (p : pixel) : length p = 1%nat -> exists v, p = [v].
Proof. destruct p as [| v [| ? ?]]; cbn; try discriminate. eauto. Qed.

Lemma pixel2 (p : pixel) : length p = 2%nat -> exists v a, p = [v; a].
Proof. destruct p as [| v [| a [| ? ?]]]; cbn; try discriminate. eauto. Qed.

Lemma pixel3 (p : pixel) : length p = 3%nat -> exists r g b, p = [r; g; b].
Proof. destruct p as [| r [| g [| b [| ? ?]]]]; cbn; try discriminate. eauto. Qed.

Lemma to_rgba_ok (img : Image) (p : pixel) :
  palette_ok img = true -> pixel_ok (mode img) p = true ->
  pixel_ok RGBA (to_rgba img p) = true.
Proof.
  intros Hpal Hp. destruct (pixel_ok_spec _ _ Hp) as [Hl Hb].
  unfold to_rgba. destruct (mode img) eqn:Em; cbn [bands] in Hl.
  - destruct (pixel1 p Hl) as (v & ->).
    apply pixel_ok_intro; [reflexivity |].
    intros u [<- | [<- | [<- | [<- | []]]]]; try (apply Hb; cbn; tauto); lia.
  - destruct (pixel2 p Hl) as (v & a & ->).
    apply pixel_ok_intro; [reflexivity |].
    intros u [<- | [<- | [<- | [<- | []]]]]; apply Hb; cbn; tauto.
  - destruct (pixel1 p Hl) as (i & ->).
    pose proof (palette_entry_ok img i Hpal) as He.
    destruct (pixel_ok_spec _ _ He) as [Hle Hbe].
    destruct (pixel3 _ Hle) as (r & g & b & E). rewrite E in *.
    apply pixel_ok_intro; [reflexivity |].
    intros u [<- | [<- | [<- | [<- | []]]]]; try (apply Hbe; cbn; tauto).
    unfold palette_alpha. destruct (transparency img) as [t |]; [| lia].
    destruct (t =? i); lia.
  - destruct (pixel3 p Hl) as (r & g & b & ->).
    apply pixel_ok_intro; [reflexivity |].
    intros u [<- | [<- | [<- | [<- | []]]]]; try (apply Hb; cbn; tauto); lia.
  - destruct (pixel4 p Hl) as (r & g & b & a & ->). exact Hp.
Qed.

Lemma convert_RGBA_wf (img : Image) :
  wf_image img = true -> palette_ok img = true ->
  wf_image (convert_RGBA img) = true.
Proof.
  intros Hwf Hpal. unfold convert_RGBA.
  apply (wf_map_pixels _ (mode img) RGBA img [] None eq_refl); [| exact Hwf].
  intros p. apply to_rgba_ok. exact Hpal.
Qed.

(** X20 (what can fail).  For a decoded picture that is well formed and
    non-empty, with sides below 2^31, a max_size between 1 and 2^19 and a
    canvas of non-negative size, nothing inside the program fails: forcing
    RGBA, normalising, trimming and the size computation all succeed, the
    resampler is called on a non-empty RGB picture no larger than the decoded
    one, and if the resampler returns an image the canvas is composed.  So
    [render] can only fail where the imaging library fails. *)
Theorem render_fails_only_in_the_library
        (W : World) (input_path : string) (max_size cw ch : Z)
        (background_color : color) (loaded : Image) :
  image_open W input_path = Ok loaded ->
  wf_image loaded = true -> palette_ok loaded = true -> nonempty loaded = true ->
  width loaded < 2 ^ 31 -> height loaded < 2 ^ 31 ->
  0 < max_size < 2 ^ 19 -> 0 <= cw -> 0 <= ch ->
  exists cropped new_size,
    wf_image cropped = true /\ nonempty cropped = true /\ mode cropped = RGB
    /\ width cropped <= width loaded /\ height cropped <= height loaded
    /\ resize_size (size cropped) max_size = Ok new_size
    /\ render W input_path max_size (cw, ch) background_color
       = (resized <- image_resize W cropped new_size ;;
          center_on_canvas resized (cw, ch) background_color)
    /\ forall resized,
         image_resize W cropped new_size = Ok resized ->
         exists final,
           render W input_path max_size (cw, ch) background_color = Ok final
           /\ size final = (cw, ch).
Proof.
  intros Hopen Hwf Hpal Hne Hw31 Hh31 Hms Hcw Hch.
  pose proof (convert_RGBA_wf loaded Hwf Hpal) as Hwf1.
  destruct (ensure_rgba_well_formed (convert_RGBA loaded)
              background_color Hwf1 eq_refl)
    as (img & Eimg & Hwf2 & Hm2 & Hs2).
  assert (Hne2 : nonempty img = true).
  { unfold nonempty in *. unfold size in Hs2. cbn [convert_RGBA width height] in Hs2.
    injection Hs2 as -> ->. exact Hne. }
  destruct (trim_border_total img Hwf2) as [_ Htrim].
  destruct (Htrim Hne2) as (cropped & Ec & Hwf3 & Hne3 & Hm3 & Hw3 & Hh3).
  unfold size in Hs2. cbn [convert_RGBA width height] in Hs2.
  injection Hs2 as Ew2 Eh2.
  apply nonempty_iff in Hne3.
  destruct (ResizeBounds.resize_size_within_one (width cropped) (height cropped)
              max_size ltac:(lia) ltac:(lia) ltac:(lia) ltac:(nia) ltac:(nia))
    as (free & Esz & _).
  exists cropped. eexists.
  split; [exact Hwf3 |]. split; [apply nonempty_iff; exact Hne3 |].
  split; [congruence |]. split; [lia |]. split; [lia |].
  split; [exact Esz |].
  assert (Er : render W input_path max_size (cw, ch) background_color
               = (resized <- image_resize W cropped
                               (if height cropped <? width cropped
                                then (max_size, free) else (free, max_size)) ;;
                  center_on_canvas resized (cw, ch) background_color)).
  { unfold render. rewrite Hopen. cbn [bind]. rewrite Eimg. cbn [bind].
    rewrite Ec. cbn [bind]. unfold resize_image, size. rewrite Esz. reflexivity. }
  split; [exact Er |].
  intros resized Hres. rewrite Er, Hres. cbn [bind].
  rewrite center_on_canvas_pixels by assumption.
  eexists. split; reflexivity.
Qed.

Lemma render_fails_only_in_the_library_witness :
  exists cropped new_size,
    wf_image cropped = true /\ nonempty cropped = true /\ mode cropped = RGB
    /\ width cropped <= width sample_framed
    /\ height cropped <= height sample_framed
    /\ resize_size (size cropped) 500 = Ok new_size
    /\ render sample_world "in/good.png" 500 (1000, 1000) white
       = (resized <- image_resize sample_world cropped new_size ;;
          center_on_canvas resized (1000, 1000) white)
    /\ forall resized,
         image_resize sample_world cropped new_size = Ok resized ->
         exists final,
           render sample_world "in/good.png" 500 (1000, 1000) white = Ok final
           /\ size final = (1000, 1000).
Proof.
  apply (render_fails_only_in_the_library sample_world "in/good.png" 500
           1000 1000 white sample_framed);
    first [reflexivity | vm_compute; intuition discriminate].
Defined.

(* ================================================================== *)
(** * Further properties of suppression and of the size computation *)
(* ================================================================== *)

Lemma suppress_post (tr tg tb cr cg cb : Z) (p : pixel) (r g b a : Z) :
  0 <= cr <= 255 -> 0 <= cg <= 255 -> 0 <= cb <= 255 ->
  suppress (tr, tg, tb) (cr, cg, cb) p = [r; g; b; a] ->
  (r = cr /\ g = cg /\ b = cb) \/ r < tr \/ g < tg \/ b < tb.
Proof.
  intros Hr Hg Hb. unfold suppress.
  destruct p as [| r0 [| g0 [| b0 [| a0 [| ? ?]]]]]; try discriminate.
  destruct (is_grey (tr, tg, tb) r0 g0 b0) eqn:E.
  - intros H. injection H as <- <- <- _.
    left. repeat split.
  - intros H. injection H as <- <- <- _. right.
    unfold is_grey in E. lia.
Qed.

(** X7 (no grey pixel is left).  After grey suppression of a well-formed
    RGBA image with an 8-bit replacement colour, every pixel either carries
    the replacement colour or has a channel below its threshold. *)
Theorem suppressed_image_has_no_grey_pixel_left
        (image : Image) (tr tg tb cr cg cb : Z) :
  wf_image image = true -> mode image = RGBA -> color_ok (cr, cg, cb) = true ->
  exists out,
    remove_grey_background image (tr, tg, tb) (cr, cg, cb) = Ok out
    /\ forall x y, in_image out x y = true ->
         exists r g b a,
           px out x y = [r; g; b; a]
           /\ ((r = cr /\ g = cg /\ b = cb) \/ r < tr \/ g < tg \/ b < tb).
Proof.
  intros Hwf Hm Hc.
  destruct (color_ok_spec cr cg cb Hc) as (Hr & Hg & Hb).
  rewrite remove_grey_rgba by assumption.
  eexists. split; [reflexivity |].
  intros x y Hin.
  assert (Hin' : in_image image x y = true) by exact Hin.
  rewrite (px_map (suppress (tr, tg, tb) (cr, cg, cb)) RGBA image [] None)
    by reflexivity.
  pose proof (suppress_ok (tr, tg, tb) (cr, cg, cb) _ Hc
                (wf_pixel_rgba image x y Hwf Hm Hin')) as Hs.
  destruct (pixel_ok_spec _ _ Hs) as [Hl _].
  destruct (pixel4 _ Hl) as (r & g & b & a & E).
  exists r, g, b, a. split; [exact E |].
  apply (suppress_post tr tg tb cr cg cb (px image x y) r g b a); assumption.
Qed.

Lemma suppressed_image_has_no_grey_pixel_left_witness :
  exists out,
    remove_grey_background sample_rgba (200, 200, 200) (255, 255, 255) = Ok out
    /\ forall x y, in_image out x y = true ->
         exists r g b a,
           px out x y = [r; g; b; a]
           /\ ((r = 255 /\ g = 255 /\ b = 255) \/ r < 200 \/ g < 200 \/ b < 200).
Proof.
  apply (suppressed_image_has_no_grey_pixel_left sample_rgba 200 200 200
           255 255 255); reflexivity.
Defined.

Module ResizeTotal.
Import PyFloat PyFloatFacts ResizeFacts ResizeBounds.
Local Open Scope Q_scope.

Lemma rne_nonneg (s : Q) : 0 <= s -> (0 <= rne s)%Z.
Proof.
  intros Hs. unfold rne.
  assert (F : (0 <= Qfloor s)%Z).
  { change 0%Z with (Qfloor 0). apply Qfloor_resp_le. exact Hs. }
  destruct (Qcompare (s - inject_Z (Qfloor s)) (1 # 2)); [| lia | lia].
  destruct (Z.even (Qfloor s)); lia.
Qed.

Lemma round53_nonneg (q r : Q) : round53 q = Some r -> 0 <= q -> 0 <= r.
Proof.
  unfold round53. intros H Hq.
  destruct (Qeq_bool q 0); [injection H as <-; discriminate |].
  set (e := Z.max (ilog2 (Qabs q) - 52) (-1074)) in *.
  destruct (Qle_bool (2 ^ 1024) (inject_Z (rne (Qabs q / 2 ^ e)) * 2 ^ e));
    [discriminate |].
  assert (Hs : Qle_bool 0 q = true) by (apply Qle_bool_iff; exact Hq).
  rewrite Hs in H. injection H as <-.
  pose proof (pow2_pos e) as He.
  apply Qmult_le_0_compat; [| lra].
  change 0 with (inject_Z 0). rewrite <- Zle_Qle. apply rne_nonneg.
  apply Qle_shift_div_l; [exact He |]. rewrite Qmult_0_l. apply Qabs_nonneg.
Qed.

Lemma to_int_nonneg (x : Q) : 0 <= x -> (0 <= to_int x)%Z.
Proof.
  intros Hx. unfold to_int.
  assert (E : Qle_bool 0 x = true) by (apply Qle_bool_iff; exact Hx).
  rewrite E. change 0%Z with (Qfloor 0). apply Qfloor_resp_le. exact Hx.
Qed.

Lemma rounded_nonneg (msg : string) (q r : Q) :
  rounded msg q = Ok r -> 0 <= q -> 0 <= r.
Proof.
  unfold rounded. destruct (round53 q) as [r' |] eqn:E; [| discriminate].
  intros H Hq. injection H as <-. exact (round53_nonneg q r' E Hq).
Qed.

Lemma inject_nonneg (n : Z) : (0 <= n)%Z -> 0 <= inject_Z n.
Proof. intros H. change 0 with (inject_Z 0). rewrite <- Zle_Qle. exact H. Qed.

(** Neither dimension the resizer computes is negative. *)
Lemma resize_size_nonneg (w h max_size nw nh : Z) :
  (0 <= w)%Z -> (0 <= h)%Z -> (0 <= max_size)%Z ->
  resize_size (w, h) max_size = Ok (nw, nh) -> (0 <= nw /\ 0 <= nh)%Z.
Proof.
  intros Hw Hh Hms H. unfold resize_size in H.
  apply bind_ok in H. destruct H as (ar & Ear & H).
  unfold int_truediv in Ear.
  destruct (h =? 0)%Z eqn:Eh; [discriminate |].
  apply Z.eqb_neq in Eh.
  assert (Har : 0 <= ar).
  { apply (rounded_nonneg _ _ _ Ear).
    apply Qle_shift_div_l.
    - change 0 with (inject_Z 0). rewrite <- Zlt_Qlt. lia.
    - rewrite Qmult_0_l. apply inject_nonneg. exact Hw. }
  destruct (h <? w)%Z.
  - apply bind_ok in H. destruct H as (q & Eq & H). injection H as <- <-.
    unfold int_div_float in Eq. apply bind_ok in Eq. destruct Eq as (m & Em & Eq).
    assert (Hm : 0 <= m) by (apply (rounded_nonneg _ _ _ Em), inject_nonneg, Hms).
    unfold div in Eq. destruct (Qeq_bool ar 0) eqn:E0; [discriminate |].
    assert (Hq : 0 <= q).
    { apply (rounded_nonneg _ _ _ Eq). apply Qle_shift_div_l.
      - apply Qle_lteq in Har. destruct Har as [Hlt | Heq]; [exact Hlt |].
        symmetry in Heq. apply Qeq_bool_iff in Heq. congruence.
      - rewrite Qmult_0_l. exact Hm. }
    split; [exact Hms | apply to_int_nonneg; exact Hq].
  - apply bind_ok in H. destruct H as (q & Eq & H). injection H as <- <-.
    unfold int_mul_float in Eq. apply bind_ok in Eq. destruct Eq as (m & Em & Eq).
    assert (Hm : 0 <= m) by (apply (rounded_nonneg _ _ _ Em), inject_nonneg, Hms).
    assert (Hq : 0 <= q).
    { apply (rounded_nonneg _ _ _ Eq). apply Qmult_le_0_compat; assumption. }
    split; [apply to_int_nonneg; exact Hq | exact Hms].
Qed.

Lemma round53_zero (q : Q) : q == 0 -> round53 q = Some 0.
Proof.
  intros H. unfold round53.
  assert (E : Qeq_bool q 0 = true) by (apply Qeq_bool_iff; exact H).
  rewrite E. reflexivity.
Qed.

(** With sides below 2^31 and max_size below 2^19 the size computation
    succeeds whenever the height is not 0. *)
Lemma resize_size_ok (w h max_size : Z) :
  (0 <= w < 2 ^ 31)%Z -> (0 < h < 2 ^ 31)%Z -> (0 <= max_size < 2 ^ 19)%Z ->
  exists nw nh, resize_size (w, h) max_size = Ok (nw, nh).
Proof.
  intros Hw Hh Hms.
  destruct (Z.eq_dec w 0) as [-> | Hw0].
  - (* width 0: the aspect ratio is 0.0 *)
    unfold resize_size, int_truediv.
    assert (E1 : (h =? 0)%Z = false) by (apply Z.eqb_neq; lia).
    rewrite E1. unfold rounded at 1.
    rewrite round53_zero by (unfold Qdiv; ring). cbn [bind].
    assert (E2 : (h <? 0)%Z = false) by lia. rewrite E2.
    unfold int_mul_float, of_int.
    destruct (Z.eq_dec max_size 0) as [-> | Hm0].
    + unfold rounded at 1. rewrite round53_zero by reflexivity. cbn [bind].
      unfold mul, rounded. rewrite round53_zero by ring. cbn [bind]. eauto.
    + assert (M1 := inject_pos max_size ltac:(lia)).
      assert (M2 : inject_Z max_size <= 524288).
      { apply (inject_lt_pow max_size _ 524288); [reflexivity | lia]. }
      destruct (round53_mid (inject_Z max_size)) as (m & Em & _); [lra | lra |].
      unfold rounded at 1. rewrite Em. cbn [bind].
      unfold mul, rounded. rewrite round53_zero by ring. cbn [bind]. eauto.
  - destruct (Z.eq_dec max_size 0) as [-> | Hm0].
    + (* max_size 0 *)
      unfold resize_size, int_truediv.
      assert (E1 : (h =? 0)%Z = false) by (apply Z.eqb_neq; lia).
      rewrite E1.
      assert (W1 := inject_pos w ltac:(lia)).
      assert (H1 := inject_pos h ltac:(lia)).
      assert (W2 := inject_lt_2_31 w ltac:(lia)).
      assert (H2 := inject_lt_2_31 h ltac:(lia)).
      assert (Hq : inject_Z w / inject_Z h * inject_Z h == inject_Z w)
        by (field; lra).
      set (q0 := inject_Z w / inject_Z h) in *.
      assert (Q0lo : (1 # 2147483648) <= q0).
      { apply (cancel_pos _ _ (inject_Z h)); [lra |]. rewrite Hq.
        apply Qle_trans with ((1 # 2147483648) * 2147483647); [| lra].
        apply Qmult_le_l; [reflexivity | exact H2]. }
      assert (Q0hi : q0 <= 2147483647).
      { apply (cancel_pos _ _ (inject_Z h)); [lra |]. rewrite Hq.
        apply Qle_trans with (2147483647 * 1); [lra |].
        apply Qmult_le_l; [reflexivity | exact H1]. }
      destruct (round53_mid q0) as (ar & Ear & A1 & _); [lra | lra |].
      unfold rounded at 1. rewrite Ear. cbn [bind].
      assert (ARpos : 0 < ar).
      { apply Qlt_le_trans with (q0 * (1 - u53)); [| exact A1].
        apply Qlt_le_trans with ((1 # 2147483648) * (1 - u53)); [reflexivity |].
        apply Qmult_le_compat_r; [exact Q0lo | discriminate]. }
      destruct (h <? w)%Z.
      * unfold int_div_float, of_int. unfold rounded at 1.
        rewrite round53_zero by reflexivity. cbn [bind]. unfold div.
        assert (E0 : Qeq_bool ar 0 = false).
        { destruct (Qeq_bool ar 0) eqn:E; [| reflexivity].
          apply Qeq_bool_iff in E. lra. }
        rewrite E0. unfold rounded.
        rewrite round53_zero by (unfold Qdiv; ring). cbn [bind]. eauto.
      * unfold int_mul_float, of_int. unfold rounded at 1.
        rewrite round53_zero by reflexivity. cbn [bind].
        unfold mul, rounded. rewrite round53_zero by ring. cbn [bind]. eauto.
    + destruct (resize_size_within_one w h max_size ltac:(lia) ltac:(lia)
                  ltac:(lia) ltac:(nia) ltac:(nia)) as (free & E & _).
      destruct (h <? w)%Z; eauto.
Qed.

End ResizeTotal.



(** X3 (when the size computation fails).  For picture sides below 2^31
    and a max_size from 0 to 2^19, computing the new size fails exactly when
    the picture has height 0, with the ZeroDivisionError of the aspect ratio;
    otherwise it returns a size with neither side negative, also for width 0
    and for max_size 0. *)
Theorem size_computation_fails_only_on_zero_height (w h max_size : Z) :
  0 <= w < 2 ^ 31 -> 0 <= h < 2 ^ 31 -> 0 <= max_size < 2 ^ 19 ->
  (h = 0 ->
   resize_size (w, h) max_size
   = Raise (mk_exn ZeroDivisionError "division by zero"))
  /\ (0 < h ->
      exists nw nh,
        resize_size (w, h) max_size = Ok (nw, nh) /\ 0 <= nw /\ 0 <= nh).
Proof.
  intros Hw Hh Hms. split.
  - intros ->. reflexivity.
  - intros Hpos.
    destruct (ResizeTotal.resize_size_ok w h max_size Hw ltac:(lia) Hms)
      as (nw & nh & E).
    exists nw, nh. split; [exact E |].
    apply (ResizeTotal.resize_size_nonneg w h max_size); (lia || exact E).
Qed.

Lemma size_computation_fails_only_on_zero_height_witness :
  exists nw nh,
    resize_size (0, 7) 500 = Ok (nw, nh) /\ 0 <= nw /\ 0 <= nh.
Proof.
  apply (size_computation_fails_only_on_zero_height 0 7 500); lia.
Defined.
